(** * Inventory stock ledger and audit reconciliation

    A shallow embedding of the stock models of the Django application:
    [Stock], [StockMovement] and [StockAudit.complete_audit] as written in
    [src/1/modelsGrok.py] (identical in [src/1/models7.py]), and the
    [WorkerProductAudit.save] override of [src/store/models.py].

    The database is modelled as one record of tables (lists of rows, in
    insertion order).  Primary keys are UUIDs drawn from [uuid.uuid4]; they
    are modelled as naturals taken from a counter, which makes them fresh.
    The code's in-memory [StockAudit] instances are part of the state (a
    [Session]): an instance keeps the values it was loaded with until the
    code changes them.  The [created_at]/[modified_at] timestamps of [BaseModel] and the
    free-text [notes] of a movement are not modelled: no claim reads them.

    The file also embeds the discount manager, [Address.save], the
    [generate_unique_slug] helper and the cart merge on login of
    [src/1/modelsGrok.py], and [Image.save] with [Product.main_image] of
    [src/store/models.py]; each module states what it leaves out. *)

From Stdlib Require Import List ZArith Lia Bool Arith.
From Stdlib Require String.
From stdpp Require pretty.
Import ListNotations.

Module Inventory.

Definition uuid := nat.
Definition ProductVariant := nat.
Definition Warehouse := nat.
Definition datetime := nat.

(** [class Stock(BaseModel)]: quantity and reserved quantity of one
    product variant in one warehouse ([IntegerField]s, hence [Z]). *)
Record Stock := mkStock {
  stock_id : uuid;
  product_variant : ProductVariant;
  warehouse : Warehouse;
  quantity : Z;
  reserved_quantity : Z
}.

Definition available_quantity (r : Stock) : Z :=
  quantity r - reserved_quantity r.

(** [StockMovement.MovementType] *)
Inductive MovementType :=
| SALE | PURCHASE | ADJUSTMENT | RETURN | TRANSFER_OUT | TRANSFER_IN.

(** [class StockMovement(BaseModel)] *)
Record StockMovement := mkStockMovement {
  movement_id : uuid;
  sm_product_variant : ProductVariant;
  sm_warehouse : Warehouse;
  quantity_changed : Z;
  movement_type : MovementType;
  related_order : option uuid;
  related_audit : option uuid
}.

(** [class StockAudit(BaseModel)] *)
Record StockAudit := mkStockAudit {
  audit_id : uuid;
  sa_product_variant : ProductVariant;
  sa_warehouse : Warehouse;
  quantity_before_audit : Z;
  quantity_recorded : Z;
  photo_taken : option uuid;
  is_completed : bool;
  completed_at : option datetime
}.

(** [StockAudit.quantity_discrepancy] *)
Definition quantity_discrepancy (a : StockAudit) : Z :=
  quantity_recorded a - quantity_before_audit a.

(** The tables of the database, and the source of fresh UUIDs. *)
Record DB := mkDB {
  stocks : list Stock;
  movements : list StockMovement;
  audits : list StockAudit;
  next_uuid : nat
}.

Definition empty_db : DB := mkDB [] [] [] 0.

(** Errors raised by the ORM calls used on these paths. *)
Inductive DjangoError := MultipleObjectsReturned | DoesNotExist.

Definition Result (A : Type) : Type := (DjangoError + A)%type.

(** ** Record updates *)

Definition set_quantity (q : Z) (r : Stock) : Stock :=
  mkStock (stock_id r) (product_variant r) (warehouse r) q (reserved_quantity r).

Definition set_stocks (l : list Stock) (s : DB) : DB :=
  mkDB l (movements s) (audits s) (next_uuid s).

Definition set_movements (l : list StockMovement) (s : DB) : DB :=
  mkDB (stocks s) l (audits s) (next_uuid s).

Definition set_audits (l : list StockAudit) (s : DB) : DB :=
  mkDB (stocks s) (movements s) l (next_uuid s).

Definition bump_uuid (s : DB) : DB :=
  mkDB (stocks s) (movements s) (audits s) (S (next_uuid s)).

(** ** [Stock.objects] *)

(** The lookup [product_variant=pv, warehouse=wh]. *)
Definition stock_matches (pv : ProductVariant) (wh : Warehouse) (r : Stock) : bool :=
  Nat.eqb (product_variant r) pv && Nat.eqb (warehouse r) wh.

(** [Stock.objects.get_or_create(product_variant=pv, warehouse=wh)]:
    [get] raises when the lookup matches several rows; otherwise the
    matching row is returned, or a new row with the field defaults
    ([quantity=0], [reserved_quantity=0]) is inserted.  The boolean is
    Django's [created] flag. *)
Definition get_or_create (pv : ProductVariant) (wh : Warehouse) (s : DB)
  : Result (Stock * bool * DB) :=
  match filter (stock_matches pv wh) (stocks s) with
  | [] =>
      let r := mkStock (next_uuid s) pv wh 0 0 in
      inr (r, true, bump_uuid (set_stocks (stocks s ++ [r]) s))
  | [r] => inr (r, false, s)
  | _ :: _ :: _ => inl MultipleObjectsReturned
  end.

(** [Stock.objects.filter(pk=pk).update(quantity=F('quantity') + delta)]:
    a server-side increment of the [quantity] column of the rows with that
    primary key; no other column is written. *)
Definition update_quantity_by_pk (pk : uuid) (delta : Z) (s : DB) : DB :=
  set_stocks
    (map (fun r => if Nat.eqb (stock_id r) pk
                   then set_quantity (quantity r + delta) r else r)
         (stocks s)) s.

(** [StockMovement.objects.create(...)] *)
Definition create_movement (pv : ProductVariant) (wh : Warehouse) (delta : Z)
  (ty : MovementType) (audit : option uuid) (s : DB) : DB :=
  let m := mkStockMovement (next_uuid s) pv wh delta ty None audit in
  bump_uuid (set_movements (movements s ++ [m]) s).

(** ** [StockAudit] persistence *)

Definition mark_completed (now : datetime) (a : StockAudit) : StockAudit :=
  mkStockAudit (audit_id a) (sa_product_variant a) (sa_warehouse a)
    (quantity_before_audit a) (quantity_recorded a) (photo_taken a)
    true (Some now).

(** [self.save(update_fields=['is_completed', 'completed_at'])]: an UPDATE
    of those two columns of the row with the instance's primary key.  This
    is what Django does for an instance whose row exists, as for every
    instance the operations below create or load (no code path deletes an
    audit row); for an instance never saved Django would INSERT the whole
    row instead, which is not modelled. *)
Definition save_completion_fields (a : StockAudit) (s : DB) : DB :=
  set_audits
    (map (fun a' => if Nat.eqb (audit_id a') (audit_id a)
                    then mkStockAudit (audit_id a') (sa_product_variant a')
                           (sa_warehouse a') (quantity_before_audit a')
                           (quantity_recorded a') (photo_taken a')
                           (is_completed a) (completed_at a)
                    else a')
         (audits s)) s.

(** [StockAudit.complete_audit], a [transaction.atomic] method.  It returns
    the method's boolean result, the instance [self] after the call, and the
    database after commit; an exception ([inl]) rolls the transaction back,
    so the caller keeps the database it had.  [now] is [timezone.now()]. *)
Definition complete_audit (now : datetime) (self : StockAudit) (s : DB)
  : Result (bool * StockAudit * DB) :=
  if is_completed self then inr (false, self, s)
  else
    let discrepancy := quantity_discrepancy self in
    match get_or_create (sa_product_variant self) (sa_warehouse self) s with
    | inl e => inl e
    | inr (stock, _, s1) =>
        let s2 := update_quantity_by_pk (stock_id stock) discrepancy s1 in
        let s3 := if negb (Z.eqb discrepancy 0)
                  then create_movement (sa_product_variant self)
                         (sa_warehouse self) discrepancy ADJUSTMENT
                         (Some (audit_id self)) s2
                  else s2 in
        let self' := mark_completed now self in
        inr (true, self', save_completion_fields self' s3)
    end.

(** [StockAudit.objects.get(pk=aid)] *)
Definition load_audit (aid : uuid) (s : DB) : Result StockAudit :=
  match filter (fun a => Nat.eqb (audit_id a) aid) (audits s) with
  | [] => inl DoesNotExist
  | [a] => inr a
  | _ :: _ :: _ => inl MultipleObjectsReturned
  end.

(** [audit.save()] on an existing row: an UPDATE of every column of the row
    with the instance's primary key.  [StockAudit] does not override
    [save]. *)
Definition save_audit (a : StockAudit) (s : DB) : DB :=
  set_audits
    (map (fun a' => if Nat.eqb (audit_id a') (audit_id a) then a else a')
         (audits s)) s.

(** Editing the counted quantity and the photo of an audit instance. *)
Definition edit_audit (recorded : Z) (photo : option uuid) (a : StockAudit)
  : StockAudit :=
  mkStockAudit (audit_id a) (sa_product_variant a) (sa_warehouse a)
    (quantity_before_audit a) recorded photo (is_completed a) (completed_at a).

(** ** Operation sequences

    The running code holds [StockAudit] instances in memory: an instance is
    loaded with [StockAudit.objects.get(pk=aid)], edited, saved with
    [save()] and completed with [complete_audit()], and it keeps its field
    values until the code changes them; nothing reloads it.  A session is
    the database together with the instances the code holds ([handles]);
    [OpLoadAudit] appends the loaded instance, and the other handle
    operations name an instance by its position.

    The operations are the lazy creation of a stock record,
    [StockAudit.objects.create] with the field defaults
    ([is_completed=False], [completed_at=None]), the handle operations, and
    two shorthands for a fresh instance used at once: loading an audit,
    editing its count or photo and saving it ([OpSaveAudit]), and loading an
    audit and calling [complete_audit] on it ([OpCompleteAudit]).  A failing
    operation leaves the database as it was (its transaction is rolled back,
    or the exception is raised before any write). *)
Record Session := mkSession {
  sess_db : DB;
  handles : list StockAudit
}.

Definition empty_session : Session := mkSession empty_db [].

(** [handles[n] = x] on a position in range. *)
Fixpoint set_nth {A} (n : nat) (x : A) (l : list A) : list A :=
  match l, n with
  | [], _ => []
  | _ :: l', O => x :: l'
  | y :: l', S n' => y :: set_nth n' x l'
  end.

Inductive Op :=
| OpGetOrCreateStock (pv : ProductVariant) (wh : Warehouse)
| OpCreateAudit (pv : ProductVariant) (wh : Warehouse)
    (before recorded : Z) (photo : option uuid)
| OpSaveAudit (aid : uuid) (recorded : Z) (photo : option uuid)
| OpCompleteAudit (aid : uuid) (now : datetime)
| OpLoadAudit (aid : uuid)
| OpEditHandle (h : nat) (recorded : Z) (photo : option uuid)
| OpSaveHandle (h : nat)
| OpCompleteHandle (h : nat) (now : datetime).

Definition run_db_op (s : DB) (op : Op) : DB :=
  match op with
  | OpGetOrCreateStock pv wh =>
      match get_or_create pv wh s with
      | inr (_, _, s') => s'
      | inl _ => s
      end
  | OpCreateAudit pv wh before recorded photo =>
      let a := mkStockAudit (next_uuid s) pv wh before recorded photo false None in
      bump_uuid (set_audits (audits s ++ [a]) s)
  | OpSaveAudit aid recorded photo =>
      match load_audit aid s with
      | inr a => save_audit (edit_audit recorded photo a) s
      | inl _ => s
      end
  | OpCompleteAudit aid now =>
      match load_audit aid s with
      | inr a =>
          match complete_audit now a s with
          | inr (_, _, s') => s'
          | inl _ => s
          end
      | inl _ => s
      end
  | _ => s
  end.

Definition run_op (st : Session) (op : Op) : Session :=
  let s := sess_db st in
  let hs := handles st in
  match op with
  | OpLoadAudit aid =>
      match load_audit aid s with
      | inr a => mkSession s (hs ++ [a])
      | inl _ => st
      end
  | OpEditHandle h recorded photo =>
      match nth_error hs h with
      | Some a => mkSession s (set_nth h (edit_audit recorded photo a) hs)
      | None => st
      end
  | OpSaveHandle h =>
      match nth_error hs h with
      | Some a => mkSession (save_audit a s) hs
      | None => st
      end
  | OpCompleteHandle h now =>
      match nth_error hs h with
      | Some a =>
          match complete_audit now a s with
          | inr (_, a', s') => mkSession s' (set_nth h a' hs)
          | inl _ => st
          end
      | None => st
      end
  | _ => mkSession (run_db_op s op) hs
  end.

Definition run_from (st : Session) (ops : list Op) : Session := fold_left run_op ops st.

(** The session after a sequence of operations from the empty one. *)
Definition run_session (ops : list Op) : Session := run_from empty_session ops.

(** The database after a sequence of operations from the empty one. *)
Definition run (ops : list Op) : DB := sess_db (run_session ops).

(** ** Reading the tables *)

(** The stock records of one (product variant, warehouse) pair. *)
Definition stocks_of (s : DB) (pv : ProductVariant) (wh : Warehouse) : list Stock :=
  filter (stock_matches pv wh) (stocks s).

Definition movement_matches (pv : ProductVariant) (wh : Warehouse)
  (m : StockMovement) : bool :=
  Nat.eqb (sm_product_variant m) pv && Nat.eqb (sm_warehouse m) wh.

Fixpoint sum_changed (ms : list StockMovement) : Z :=
  match ms with
  | [] => 0
  | m :: ms' => quantity_changed m + sum_changed ms'
  end.

(** The sum of [quantity_changed] over the movements of one pair. *)
Definition ledger_sum (s : DB) (pv : ProductVariant) (wh : Warehouse) : Z :=
  sum_changed (filter (movement_matches pv wh) (movements s)).

End Inventory.

(** * [WorkerProductAudit] of the [store] application *)
Module Store.

Definition uuid := nat.
Definition datetime := nat.

(** The fields of [WorkerProductAudit] read or written by its [save];
    [quantity_recorded] is a nullable [PositiveIntegerField]. *)
Record WorkerProductAudit := mkWorkerProductAudit {
  wpa_quantity_recorded : option nat;
  wpa_photo_taken : option uuid;
  wpa_is_completed : bool;
  wpa_completed_at : option datetime
}.

(** The field updates performed by [WorkerProductAudit.save] before it calls
    [super().save()]; [now] is [timezone.now()]. *)
Definition save (now : datetime) (self : WorkerProductAudit) : WorkerProductAudit :=
  match wpa_quantity_recorded self, wpa_photo_taken self with
  | Some _, Some _ =>
      if negb (wpa_is_completed self)
      then mkWorkerProductAudit (wpa_quantity_recorded self) (wpa_photo_taken self)
             true (Some now)
      else self
  | _, _ =>
      if wpa_is_completed self
      then mkWorkerProductAudit (wpa_quantity_recorded self) (wpa_photo_taken self)
             false None
      else self
  end.

End Store.

(** * [Discount] and [DiscountManager] of [src/1/modelsGrok.py]

    Only the fields the manager and [is_valid] read are modelled; the
    date-times are naturals ordered as the aware datetimes are.  [now] is
    the value of [timezone.now()] taken by the call. *)
Module Discounts.

Definition uuid := nat.
Definition datetime := nat.

Record Discount := mkDiscount {
  discount_id : uuid;
  is_active : bool;
  start_date : datetime;
  end_date : datetime;
  max_uses : option nat;       (** [PositiveIntegerField(null=True)] *)
  used_count : nat
}.

Definition set_is_active (b : bool) (d : Discount) : Discount :=
  mkDiscount (discount_id d) b (start_date d) (end_date d) (max_uses d) (used_count d).

(** [Discount.is_valid]; [self.max_uses and ...] is false when [max_uses]
    is [None] or [0], Python's falsy values. *)
Definition is_valid (now : datetime) (self : Discount) : bool :=
  if negb (is_active self && (Nat.leb (start_date self) now && Nat.leb now (end_date self)))
  then false
  else if match max_uses self with
          | None => false
          | Some m => negb (Nat.eqb m 0) && Nat.leb m (used_count self)
          end
  then false
  else true.

(** [filter(is_active=True, start_date__lte=now, end_date__gte=now)] *)
Definition get_active (now : datetime) (ds : list Discount) : list Discount :=
  filter (fun d => is_active d && Nat.leb (start_date d) now && Nat.leb now (end_date d)) ds.

(** [filter(end_date__lt=now, is_active=True)] *)
Definition expired_active (now : datetime) (d : Discount) : bool :=
  Nat.ltb (end_date d) now && is_active d.

(** [deactivate_expired]: [QuerySet.update(is_active=False)] writes every
    matched row and returns the number of rows matched. *)
Definition deactivate_expired (now : datetime) (ds : list Discount) : nat * list Discount :=
  (length (filter (expired_active now) ds),
   map (fun d => if expired_active now d then set_is_active false d else d) ds).

End Discounts.

(** * [Address.save] of [src/1/modelsGrok.py]

    The table is a list of rows.  [Model.save] updates the row with the
    instance's primary key when there is one and inserts the instance
    otherwise.  The postal fields are not read by [save]; they are one
    opaque value [address_details]. *)
Module Addresses.

Definition uuid := nat.
Definition user_id := nat.

Inductive AddressType := SHIPPING | BILLING.

Definition address_type_eqb (a b : AddressType) : bool :=
  match a, b with
  | SHIPPING, SHIPPING | BILLING, BILLING => true
  | _, _ => false
  end.

Record Address := mkAddress {
  address_id : uuid;
  user : user_id;
  address_type : AddressType;
  is_default : bool;
  address_details : nat
}.

Definition clear_default (a : Address) : Address :=
  mkAddress (address_id a) (user a) (address_type a) false (address_details a).

(** [Model.save]: UPDATE the row with this pk, or INSERT. *)
Definition model_save (self : Address) (rows : list Address) : list Address :=
  if existsb (fun r => Nat.eqb (address_id r) (address_id self)) rows
  then map (fun r => if Nat.eqb (address_id r) (address_id self) then self else r) rows
  else rows ++ [self].

(** [filter(user=self.user, address_type=self.address_type).exclude(pk=self.pk)] *)
Definition same_group_other (self r : Address) : bool :=
  Nat.eqb (user r) (user self) && address_type_eqb (address_type r) (address_type self)
  && negb (Nat.eqb (address_id r) (address_id self)).

Definition save (self : Address) (rows : list Address) : list Address :=
  let rows1 :=
    if is_default self
    then map (fun r => if same_group_other self r then clear_default r else r) rows
    else rows in
  model_save self rows1.

(** The table after a sequence of saves on an empty table. *)
Definition run_saves (l : list Address) : list Address :=
  fold_left (fun rows a => save a rows) l [].

(** The map [save] applies to the table before [Model.save]. *)
Definition clear_fun (self r : Address) : Address :=
  if is_default self && same_group_other self r then clear_default r else r.

(** The default addresses of one user and type. *)
Definition defaults_of (rows : list Address) (u : user_id) (t : AddressType) : list Address :=
  filter (fun r => is_default r && Nat.eqb (user r) u && address_type_eqb (address_type r) t) rows.

(** Sample rows for the witnesses. *)
Definition sample_saves : list Address :=
  [mkAddress 1 5 SHIPPING true 0; mkAddress 3 5 BILLING true 0].

Definition sample_address : Address := mkAddress 2 5 SHIPPING true 0.

End Addresses.

(** * [generate_unique_slug] of [src/1/modelsGrok.py] and [src/store/models.py]

    The helper reads the slug field, [_state.adding], the source field and
    the primary key of the instance, and the [(pk, slug)] pairs of the rows
    of the model's table.  [slugify] is Django's; it is a parameter.
    [si_source] is [getattr(instance, source_field, ...)]: every caller
    passes a field the model has, so the default of the [modelsGrok]
    variant is never used and the two variants read the same value.  The
    primary key is always set (the [uuid4] default), so [if instance.pk]
    always holds and the row of the instance itself is excluded. *)
Module Slug.
Import String.StringSyntax.
Local Open Scope string_scope.

Definition uuid := nat.

(** Python's [str] of a non-negative [int]: its decimal digits. *)
Definition py_str (n : nat) : String.string := stdpp.pretty.pretty_nat n.

Record SlugInstance := mkSlugInstance {
  si_pk : uuid;
  si_slug : String.string;
  si_adding : bool;
  si_source : String.string;
  si_id8 : String.string         (** [str(instance.id)[:8]] *)
}.

(** [ModelClass.objects.filter(slug=slug).exclude(pk=pk).exists()] *)
Definition slug_exists (rows : list (uuid * String.string)) (pk : uuid) (slug : String.string) : bool :=
  existsb (fun r => String.eqb (snd r) slug && negb (Nat.eqb (fst r) pk)) rows.

(** [f"{base_slug}-{num}"] *)
Definition numbered (base : String.string) (num : nat) : String.string :=
  String.append base (String.append "-" (py_str num)).

(** The slugs the loop tries in turn: [base_slug], then [base_slug-1],
    [base_slug-2], ... *)
Definition slug_candidate (base : String.string) (n : nat) : String.string :=
  match n with
  | O => base
  | S _ => numbered base n
  end.

Section WithSlugify.
Variable slugify : String.string -> String.string.

Definition base_slug (inst : SlugInstance) : String.string :=
  let b := slugify (si_source inst) in
  if String.eqb b String.EmptyString then si_id8 inst else b.

(** The [while qs.exists()] loop, given a bound on its rounds. *)
Fixpoint slug_loop (fuel : nat) (rows : list (uuid * String.string)) (pk : uuid)
    (base slug : String.string) (num : nat) : option String.string :=
  match fuel with
  | O => None
  | S fuel' =>
      if slug_exists rows pk slug
      then slug_loop fuel' rows pk base (numbered base num) (S num)
      else Some slug
  end.

(** The loop runs at most one round more than there are rows
    ([generate_unique_slug_first_free] shows the bound is never hit). *)
Definition generate_unique_slug (inst : SlugInstance) (rows : list (uuid * String.string))
    : option String.string :=
  if negb (String.eqb (si_slug inst) String.EmptyString) && negb (si_adding inst)
  then Some (si_slug inst)
  else
    let base := base_slug inst in
    slug_loop (S (length rows)) rows (si_pk inst) base base 1.

End WithSlugify.

(** Sample table for the witnesses: two rows already hold [tee] and [tee-1]. *)
Definition sample_rows : list (uuid * String.string) := [(1, "tee"); (2, "tee-1")].

Definition sample_instance : SlugInstance := mkSlugInstance 3 String.EmptyString true "tee" "0a1b2c3d".

End Slug.

(** * [merge_anonymous_cart_with_user_cart] of [src/1/modelsGrok.py]

    The [user_logged_in] receiver, with [Cart] and [CartItem] as tables.
    [anonymous_cart.items.all()] is read once, when the [for] loop starts;
    its rows are taken in table order, which stands for the default
    [-created_at] ordering (no statement below depends on that order).
    The receiver runs under [transaction.atomic] but catches every
    exception itself, so writes made before an exception are committed:
    a failing [get_or_create] in the loop keeps the items merged so far
    and skips [anonymous_cart.delete()]. *)
Module Carts.

Definition uuid := nat.
Definition user_id := nat.
Definition variant := nat.

Record Cart := mkCart {
  cart_id : uuid;
  cart_user : option user_id;
  session_key : option String.string
}.

Record CartItem := mkCartItem {
  item_id : uuid;
  item_cart : uuid;
  product_variant : variant;
  quantity : nat
}.

Record CartDB := mkCartDB {
  carts : list Cart;
  items : list CartItem;
  next_uuid : nat
}.

Definition set_carts (l : list Cart) (db : CartDB) : CartDB :=
  mkCartDB l (items db) (next_uuid db).

Definition set_items (l : list CartItem) (db : CartDB) : CartDB :=
  mkCartDB (carts db) l (next_uuid db).

(** [Cart.objects.get(...)] with the lookup as a predicate. *)
Definition get_cart (p : Cart -> bool) (db : CartDB) : Inventory.Result Cart :=
  match filter p (carts db) with
  | [] => inl Inventory.DoesNotExist
  | [c] => inr c
  | _ => inl Inventory.MultipleObjectsReturned
  end.

(** [session_key=session_key, user__isnull=True] *)
Definition is_anonymous_cart_of (k : String.string) (c : Cart) : bool :=
  match session_key c with Some k' => String.eqb k' k | None => false end
  && match cart_user c with None => true | Some _ => false end.

(** [user=user] *)
Definition is_cart_of (u : user_id) (c : Cart) : bool :=
  match cart_user c with Some u' => Nat.eqb u' u | None => false end.

(** [cart=c, product_variant=v] *)
Definition item_matches (c : uuid) (v : variant) (i : CartItem) : bool :=
  Nat.eqb (item_cart i) c && Nat.eqb (product_variant i) v.

(** [CartItem.objects.get_or_create(cart=c, product_variant=v,
    defaults={'quantity': q})] *)
Definition get_or_create_item (c : uuid) (v : variant) (q : nat) (db : CartDB)
    : Inventory.Result (CartItem * bool * CartDB) :=
  match filter (item_matches c v) (items db) with
  | [] =>
      let it := mkCartItem (next_uuid db) c v q in
      inr (it, true, mkCartDB (carts db) (items db ++ [it]) (S (next_uuid db)))
  | [it] => inr (it, false, db)
  | _ => inl Inventory.MultipleObjectsReturned
  end.

Definition bump_quantity (pk : uuid) (n : nat) (i : CartItem) : CartItem :=
  if Nat.eqb (item_id i) pk
  then mkCartItem (item_id i) (item_cart i) (product_variant i) (quantity i + n)
  else i.

(** [existing_item.quantity = F('quantity') + n;
    existing_item.save(update_fields=['quantity'])] *)
Definition add_quantity (pk : uuid) (n : nat) (db : CartDB) : CartDB :=
  set_items (map (bump_quantity pk n) (items db)) db.

(** The [for] loop over the anonymous cart's items; an exception stops
    it with the writes made so far. *)
Fixpoint merge_items (uc : uuid) (its : list CartItem) (db : CartDB)
    : option Inventory.DjangoError * CartDB :=
  match its with
  | [] => (None, db)
  | it :: rest =>
      match get_or_create_item uc (product_variant it) (quantity it) db with
      | inl e => (Some e, db)
      | inr (existing, created, db1) =>
          let db2 := if created then db1 else add_quantity (item_id existing) (quantity it) db1 in
          merge_items uc rest db2
      end
  end.

(** [anonymous_cart.delete()]: the cart and, by [on_delete=CASCADE], its
    items. *)
Definition delete_cart (c : uuid) (db : CartDB) : CartDB :=
  mkCartDB (filter (fun x => negb (Nat.eqb (cart_id x) c)) (carts db))
           (filter (fun i => negb (Nat.eqb (item_cart i) c)) (items db))
           (next_uuid db).

(** [anonymous_cart.user = user; anonymous_cart.session_key = None;
    anonymous_cart.save(update_fields=['user', 'session_key'])] *)
Definition assign_cart (c : uuid) (u : user_id) (db : CartDB) : CartDB :=
  set_carts (map (fun x => if Nat.eqb (cart_id x) c then mkCart (cart_id x) (Some u) None else x)
                 (carts db)) db.

(** The receiver; [session] is [request.session.session_key]. *)
Definition merge_anonymous_cart_with_user_cart (session : option String.string) (u : user_id)
    (db : CartDB) : CartDB :=
  match session with
  | None => db
  | Some k =>
      if String.eqb k String.EmptyString then db else
      match get_cart (is_anonymous_cart_of k) db with
      | inl _ => db
      | inr ac =>
          match get_cart (is_cart_of u) db with
          | inr uc =>
              match merge_items (cart_id uc)
                      (filter (fun i => Nat.eqb (item_cart i) (cart_id ac)) (items db)) db with
              | (None, db1) => delete_cart (cart_id ac) db1
              | (Some _, db1) => db1
              end
          | inl Inventory.DoesNotExist => assign_cart (cart_id ac) u db
          | inl Inventory.MultipleObjectsReturned => db
          end
      end
  end.

(** Total quantity of variant [v] in cart [c]. *)
Definition cart_quantity (db : CartDB) (c : uuid) (v : variant) : nat :=
  list_sum (map quantity (filter (item_matches c v) (items db))).

(** The conditions the [for] loop keeps on the item table, for the user's
    cart [c]: item primary keys are distinct and below the counter, and
    [unique_together = [['cart', 'product_variant']]] holds in [c]. *)
Definition loop_inv (c : uuid) (db : CartDB) : Prop :=
  NoDup (map item_id (items db))
  /\ (forall i, In i (items db) -> item_id i < next_uuid db)
  /\ (forall v, length (filter (item_matches c v) (items db)) <= 1).

(** Sample tables for the witnesses: an anonymous cart [1] of session
    [abc] and the cart [2] of user [9]. *)
Import String.StringSyntax.
Local Open Scope string_scope.

Definition sample_session : String.string := "abc".

Definition sample_anonymous_cart : Cart := mkCart 1 None (Some sample_session).

Definition sample_user_cart : Cart := mkCart 2 (Some 9) None.

Definition sample_cart_db : CartDB :=
  mkCartDB [sample_anonymous_cart; sample_user_cart]
           [mkCartItem 3 1 7 2; mkCartItem 4 1 8 1; mkCartItem 5 2 7 5] 6.

Definition sample_adopt_db : CartDB :=
  mkCartDB [sample_anonymous_cart] [mkCartItem 3 1 7 2] 4.

End Carts.

(** * [Image.save] and [Product.main_image] of [src/store/models.py]

    [images] is the image table, listed in its default [-created_at]
    order, so [Model.save] puts a new row first.  [product_images] is the
    table behind [Product.images] ([ManyToManyField(Image,
    related_name='products')]), as [(product, image)] pairs.  Only
    [is_main] of an image is modelled: the rest of [save] (the PIL
    processing of a non-main image) writes only the file and its
    resolution, size and format. *)
Module Images.

Definition uuid := nat.

Record Image := mkImage {
  image_id : uuid;
  is_main : bool
}.

Record ImageDB := mkImageDB {
  images : list Image;
  product_images : list (uuid * uuid)
}.

Definition set_images (l : list Image) (db : ImageDB) : ImageDB :=
  mkImageDB l (product_images db).

Definition set_main (b : bool) (i : Image) : Image := mkImage (image_id i) b.

(** [Model.save]: UPDATE the row with this pk, or INSERT. *)
Definition model_save (self : Image) (db : ImageDB) : ImageDB :=
  if existsb (fun r => Nat.eqb (image_id r) (image_id self)) (images db)
  then set_images (map (fun r => if Nat.eqb (image_id r) (image_id self) then self else r) (images db)) db
  else set_images (self :: images db) db.

Definition linked (db : ImageDB) (p : uuid) (i : Image) : bool :=
  existsb (fun l => Nat.eqb (fst l) p && Nat.eqb (snd l) (image_id i)) (product_images db).

(** [self.products.all()] *)
Definition products_of (db : ImageDB) (img : uuid) : list uuid :=
  map fst (filter (fun l => Nat.eqb (snd l) img) (product_images db)).

(** [product.images.all()] *)
Definition images_of (db : ImageDB) (p : uuid) : list Image :=
  filter (linked db p) (images db).

(** [product.images.exclude(pk=pk).filter(is_main=True).update(is_main=False)] *)
Definition unset_other_main (pk : uuid) (db : ImageDB) (p : uuid) : ImageDB :=
  set_images (map (fun i => if linked db p i && negb (Nat.eqb (image_id i) pk) && is_main i
                            then set_main false i else i) (images db)) db.

(** [Image.save] *)
Definition save (self : Image) (db : ImageDB) : ImageDB :=
  if is_main self
  then let db1 := model_save self db in
       fold_left (unset_other_main (image_id self)) (products_of db1 (image_id self)) db1
  else model_save self db.

(** What the loop over [self.products.all()] does to one image, given the
    products of [ps] (see [fold_unset_other_main]). *)
Definition clear_linked (db : ImageDB) (pk : uuid) (ps : list uuid) (i : Image) : Image :=
  if existsb (fun p => linked db p i) ps && negb (Nat.eqb (image_id i) pk) && is_main i
  then set_main false i else i.

(** [Product.main_image] *)
Definition main_image (db : ImageDB) (p : uuid) : option Image :=
  match filter is_main (images_of db p) with
  | i :: _ => Some i
  | [] => hd_error (images_of db p)
  end.

(** Sample tables for the witnesses: product [1] shows images [10] (main)
    and [11]; image [11] is being made the main one. *)
Definition sample_image_db : ImageDB :=
  mkImageDB [mkImage 11 false; mkImage 10 true] [(1, 10); (1, 11)].

Definition sample_image : Image := mkImage 11 true.

(** The same tables with a third image [12], main image of product [2]. *)
Definition sample_two_products_db : ImageDB :=
  mkImageDB [mkImage 11 false; mkImage 10 true; mkImage 12 true] [(1, 10); (1, 11); (2, 12)].

End Images.

Import Inventory.

(** * The ledger invariant

    The properties every database reached by the operations keeps: stock
    ids are distinct and below the UUID counter, a pair has at most one
    stock record, its quantity is the sum of its movements, and its reserved
    quantity is zero (no code path writes [reserved_quantity]). *)
Record Inv (s : DB) : Prop := {
  inv_ids : NoDup (map stock_id (stocks s));
  inv_fresh : forall r, In r (stocks s) -> stock_id r < next_uuid s;
  inv_unique : forall pv wh, length (stocks_of s pv wh) <= 1;
  inv_ledger : forall pv wh r, In r (stocks_of s pv wh) ->
                 quantity r = ledger_sum s pv wh;
  inv_ledger_none : forall pv wh, stocks_of s pv wh = [] -> ledger_sum s pv wh = 0%Z;
  inv_reserved : forall r, In r (stocks s) -> reserved_quantity r = 0%Z
}.

(** Audit ids stay below the UUID counter. *)
Definition AInv (s : DB) : Prop :=
  forall a, In a (audits s) -> audit_id a < next_uuid s.

(** The stock table after the discrepancy [d] of an audit of [(pv, wh)]
    has been applied, where [n] is the id a new record would get. *)
Definition adjusted_stocks (pv : ProductVariant) (wh : Warehouse) (d : Z)
  (n : uuid) (l : list Stock) : list Stock :=
  match filter (stock_matches pv wh) l with
  | [] => l ++ [mkStock n pv wh d 0]
  | _ => map (fun r => if stock_matches pv wh r
                       then set_quantity (quantity r + d) r else r) l
  end.

(** The movements an audit with discrepancy [d] appends, [mid] being the
    id of the new row. *)
Definition adjustment_rows (a : StockAudit) (mid : uuid) : list StockMovement :=
  if Z.eqb (quantity_discrepancy a) 0 then []
  else [mkStockMovement mid (sa_product_variant a) (sa_warehouse a)
          (quantity_discrepancy a) ADJUSTMENT None (Some (audit_id a))].

(** * Sample data used by the witnesses *)

(** An audit of variant 7 in warehouse 1 counting 100 units where 0 were
    expected, completed: the pair's record holds 100 units afterwards. *)
Definition sample_ops : list Op :=
  [OpCreateAudit 7 1 0 100 None; OpCompleteAudit 0 1].

Definition sample_stock : Stock := mkStock 1 7 1 100 0.

(** A pending audit of the same pair: 100 expected, 92 counted. *)
Definition sample_audit : StockAudit := mkStockAudit 3 7 1 100 92 None false None.

(** * Helper lemmas *)

Lemma filter_map_keep {A} (p : A -> bool) (f : A -> A) (l : list A) :
  (forall x, p (f x) = p x) -> filter p (map f l) = map f (filter p l).
Proof.
  intros Hp; induction l as [|x l IH]; simpl; [reflexivity|].
  rewrite Hp; destruct (p x); simpl; rewrite IH; reflexivity.
Qed.

Lemma NoDup_map_eq {A B} (f : A -> B) (l : list A) x y :
  NoDup (map f l) -> In x l -> In y l -> f x = f y -> x = y.
Proof.
  induction l as [|z l IH]; simpl; [tauto|].
  intros Hnd Hx Hy Hf; inversion Hnd as [|? ? Hnin Hnd']; subst.
  destruct Hx as [<-|Hx], Hy as [<-|Hy]; auto.
  - exfalso; apply Hnin; rewrite Hf; apply in_map; exact Hy.
  - exfalso; apply Hnin; rewrite <- Hf; apply in_map; exact Hx.
Qed.

Lemma sum_changed_app l1 l2 :
  sum_changed (l1 ++ l2) = (sum_changed l1 + sum_changed l2)%Z.
Proof. induction l1 as [|m l1 IH]; simpl; [reflexivity|rewrite IH; lia]. Qed.

Lemma stock_matches_set_quantity pv wh q r :
  stock_matches pv wh (set_quantity q r) = stock_matches pv wh r.
Proof. reflexivity. Qed.

Lemma stock_matches_adjust pv wh (b : bool) q r :
  stock_matches pv wh (if b then set_quantity q r else r) = stock_matches pv wh r.
Proof. destruct b; reflexivity. Qed.

Lemma stock_matches_true pv wh r :
  stock_matches pv wh r = true <-> product_variant r = pv /\ warehouse r = wh.
Proof. unfold stock_matches; rewrite andb_true_iff, !Nat.eqb_eq; tauto. Qed.

Lemma in_stocks_of s pv wh r :
  In r (stocks_of s pv wh) <-> In r (stocks s) /\ product_variant r = pv /\ warehouse r = wh.
Proof. unfold stocks_of; rewrite filter_In, stock_matches_true; tauto. Qed.

Lemma stocks_create_movement pv wh d ty au s :
  stocks (create_movement pv wh d ty au s) = stocks s.
Proof. reflexivity. Qed.

Lemma stocks_save_completion_fields a s :
  stocks (save_completion_fields a s) = stocks s.
Proof. reflexivity. Qed.

Lemma movements_save_completion_fields a s :
  movements (save_completion_fields a s) = movements s.
Proof. reflexivity. Qed.

Lemma next_uuid_save_completion_fields a s :
  next_uuid (save_completion_fields a s) = next_uuid s.
Proof. reflexivity. Qed.

Lemma ledger_sum_create_movement pv wh d ty au s pv' wh' :
  ledger_sum (create_movement pv wh d ty au s) pv' wh' =
  (ledger_sum s pv' wh' + if Nat.eqb pv pv' && Nat.eqb wh wh' then d else 0)%Z.
Proof.
  unfold ledger_sum, create_movement; simpl.
  rewrite filter_app, sum_changed_app; simpl.
  unfold movement_matches; simpl.
  destruct (Nat.eqb pv pv' && Nat.eqb wh wh'); simpl; lia.
Qed.

Lemma ledger_sum_adjustment_rows s a mid pv wh :
  ledger_sum (set_movements (movements s ++ adjustment_rows a mid) s) pv wh =
  (ledger_sum s pv wh +
   if Nat.eqb (sa_product_variant a) pv && Nat.eqb (sa_warehouse a) wh
   then quantity_discrepancy a else 0)%Z.
Proof.
  unfold ledger_sum, adjustment_rows; simpl.
  rewrite filter_app, sum_changed_app.
  destruct (Z.eqb_spec (quantity_discrepancy a) 0) as [Hd|Hd]; simpl.
  - rewrite Hd; destruct (_ && _); lia.
  - unfold movement_matches; simpl.
    destruct (Nat.eqb (sa_product_variant a) pv && Nat.eqb (sa_warehouse a) wh);
      simpl; lia.
Qed.

Lemma update_fresh_row (l : list Stock) n pv wh d :
  (forall r, In r l -> stock_id r < n) ->
  map (fun r => if Nat.eqb (stock_id r) n then set_quantity (quantity r + d) r else r)
      (l ++ [mkStock n pv wh 0 0]) = l ++ [mkStock n pv wh d 0].
Proof.
  intros Hfresh; rewrite map_app; simpl; rewrite Nat.eqb_refl; f_equal.
  rewrite <- (map_id l) at 2; apply map_ext_in; intros r Hr.
  specialize (Hfresh r Hr); destruct (Nat.eqb_spec (stock_id r) n); [lia|reflexivity].
Qed.

Lemma update_existing_row (l : list Stock) r pv wh d :
  NoDup (map stock_id l) -> filter (stock_matches pv wh) l = [r] ->
  map (fun x => if Nat.eqb (stock_id x) (stock_id r)
                then set_quantity (quantity x + d) x else x) l =
  map (fun x => if stock_matches pv wh x
                then set_quantity (quantity x + d) x else x) l.
Proof.
  intros Hnd Hf.
  assert (Hr : In r (filter (stock_matches pv wh) l)) by (rewrite Hf; left; reflexivity).
  apply filter_In in Hr as [Hrl Hrm].
  apply map_ext_in; intros x Hx.
  destruct (Nat.eqb_spec (stock_id x) (stock_id r)) as [E|E].
  - rewrite (NoDup_map_eq _ _ _ _ Hnd Hx Hrl E), Hrm; reflexivity.
  - destruct (stock_matches pv wh x) eqn:Hm; [|reflexivity].
    assert (Hin : In x (filter (stock_matches pv wh) l)) by (apply filter_In; auto).
    rewrite Hf in Hin; destruct Hin as [<-|[]]; congruence.
Qed.

(** The effect of completing a pending audit, on a database that keeps the
    invariant: the call succeeds, the discrepancy is added to the pair's
    record (created with zeros when missing), the adjustment rows are
    appended, and the two completion columns of the audit row are written. *)
Lemma complete_audit_pending_effect s now a :
  Inv s -> is_completed a = false ->
  exists s' mid,
    complete_audit now a s = inr (true, mark_completed now a, s') /\
    stocks s' = adjusted_stocks (sa_product_variant a) (sa_warehouse a)
                  (quantity_discrepancy a) (next_uuid s) (stocks s) /\
    movements s' = movements s ++ adjustment_rows a mid /\
    audits s' = audits (save_completion_fields (mark_completed now a) s) /\
    next_uuid s <= next_uuid s' /\
    (stocks_of s (sa_product_variant a) (sa_warehouse a) = [] ->
     next_uuid s < next_uuid s').
Proof.
  intros HI Hp; unfold complete_audit, adjusted_stocks, adjustment_rows, stocks_of.
  rewrite Hp; unfold get_or_create.
  destruct (filter (stock_matches (sa_product_variant a) (sa_warehouse a)) (stocks s))
    as [|r [|r2 l]] eqn:Hf.
  - destruct (Z.eqb (quantity_discrepancy a) 0) eqn:Hd; simpl.
    + eexists; exists 0; split; [reflexivity|]; simpl.
      rewrite update_fresh_row by exact (inv_fresh _ HI).
      repeat split; simpl; try lia; try reflexivity; try discriminate.
      rewrite app_nil_r; reflexivity.
    + eexists; exists (S (next_uuid s)); split; [reflexivity|]; simpl.
      rewrite update_fresh_row by exact (inv_fresh _ HI).
      repeat split; simpl; try lia; try reflexivity; discriminate.
  - destruct (Z.eqb (quantity_discrepancy a) 0) eqn:Hd; simpl.
    + eexists; exists 0; split; [reflexivity|]; simpl.
      rewrite (update_existing_row _ _ _ _ _ (inv_ids _ HI) Hf).
      repeat split; simpl; try lia; try reflexivity; try discriminate.
      rewrite app_nil_r; reflexivity.
    + eexists; exists (next_uuid s); split; [reflexivity|]; simpl.
      rewrite (update_existing_row _ _ _ _ _ (inv_ids _ HI) Hf).
      repeat split; simpl; try lia; try reflexivity; discriminate.
  - exfalso; pose proof (inv_unique _ HI (sa_product_variant a) (sa_warehouse a)) as Hu.
    unfold stocks_of in Hu; rewrite Hf in Hu; simpl in Hu; lia.
Qed.

Lemma NoDup_snoc {A} (l : list A) x : NoDup l -> ~ In x l -> NoDup (l ++ [x]).
Proof.
  induction l as [|y l IH]; simpl; intros Hnd Hx.
  - constructor; [intros []|constructor].
  - inversion Hnd as [|? ? Hy Hnd']; subst; constructor.
    + rewrite in_app_iff; simpl; intros [H|[H|[]]]; [tauto|apply Hx; left; auto].
    + apply IH; auto.
Qed.

Lemma stock_matches_other pv wh pv' wh' x :
  Nat.eqb pv pv' && Nat.eqb wh wh' = false ->
  stock_matches pv' wh' x = true -> stock_matches pv wh x = false.
Proof.
  intros Hk Hx; apply stock_matches_true in Hx as [<- <-].
  unfold stock_matches.
  rewrite (Nat.eqb_sym (product_variant x)), (Nat.eqb_sym (warehouse x)); exact Hk.
Qed.

(** Per pair, applying the discrepancy touches only the audited pair. *)
Lemma filter_adjusted_stocks l pv wh d n pv' wh' :
  filter (stock_matches pv' wh') (adjusted_stocks pv wh d n l) =
  if Nat.eqb pv pv' && Nat.eqb wh wh' then
    match filter (stock_matches pv wh) l with
    | [] => [mkStock n pv wh d 0]
    | f => map (fun r => set_quantity (quantity r + d) r) f
    end
  else filter (stock_matches pv' wh') l.
Proof.
  unfold adjusted_stocks.
  destruct (Nat.eqb pv pv' && Nat.eqb wh wh') eqn:Hk.
  - apply andb_true_iff in Hk as [E1 E2]; apply Nat.eqb_eq in E1, E2; subst pv' wh'.
    destruct (filter (stock_matches pv wh) l) as [|x f] eqn:Hf.
    + rewrite filter_app, Hf; simpl; unfold stock_matches at 1; simpl.
      rewrite !Nat.eqb_refl; reflexivity.
    + rewrite filter_map_keep by (intros y; apply stock_matches_adjust).
      rewrite Hf; apply map_ext_in; intros y Hy.
      assert (Hm : stock_matches pv wh y = true).
      { assert (Hy' : In y (filter (stock_matches pv wh) l)) by (rewrite Hf; exact Hy).
        apply filter_In in Hy'; tauto. }
      rewrite Hm; reflexivity.
  - destruct (filter (stock_matches pv wh) l) as [|x f] eqn:Hf.
    + rewrite filter_app; simpl; unfold stock_matches at 2; simpl.
      rewrite Hk, app_nil_r; reflexivity.
    + rewrite filter_map_keep by (intros y; apply stock_matches_adjust).
      rewrite <- (map_id (filter _ l)) at 2; apply map_ext_in; intros y Hy.
      apply filter_In in Hy as [_ Hy].
      rewrite (stock_matches_other _ _ _ _ _ Hk Hy); reflexivity.
Qed.

Lemma in_adjusted_stocks l pv wh d n r :
  In r (adjusted_stocks pv wh d n l) ->
  In r l \/ r = mkStock n pv wh d 0 \/
  (exists x, In x l /\ r = set_quantity (quantity x + d) x).
Proof.
  unfold adjusted_stocks; destruct (filter (stock_matches pv wh) l).
  - rewrite in_app_iff; simpl; intros [H|[H|[]]]; auto.
  - intros H; apply in_map_iff in H as [x [<- Hx]].
    destruct (stock_matches pv wh x); [right; right; eauto|left; auto].
Qed.

Lemma map_stock_id_adjusted l pv wh d n :
  map stock_id (adjusted_stocks pv wh d n l) =
  match filter (stock_matches pv wh) l with
  | [] => map stock_id l ++ [n]
  | _ => map stock_id l
  end.
Proof.
  unfold adjusted_stocks; destruct (filter (stock_matches pv wh) l).
  - rewrite map_app; reflexivity.
  - rewrite map_map; apply map_ext; intros x; destruct (stock_matches pv wh x); reflexivity.
Qed.

(** Applying a discrepancy [d] to the pair [(pv, wh)], together with a
    ledger that grows by [d] on that pair only, keeps the invariant. *)
Lemma Inv_adjust s s' pv wh d :
  Inv s ->
  stocks s' = adjusted_stocks pv wh d (next_uuid s) (stocks s) ->
  (forall pv' wh', ledger_sum s' pv' wh' =
     (ledger_sum s pv' wh' + if Nat.eqb pv pv' && Nat.eqb wh wh' then d else 0)%Z) ->
  next_uuid s <= next_uuid s' ->
  (stocks_of s pv wh = [] -> next_uuid s < next_uuid s') ->
  Inv s'.
Proof.
  intros HI Hst Hl Hn Hc; constructor.
  - rewrite Hst, map_stock_id_adjusted.
    destruct (filter (stock_matches pv wh) (stocks s)); [|exact (inv_ids _ HI)].
    apply NoDup_snoc; [exact (inv_ids _ HI)|].
    intros Hin; apply in_map_iff in Hin as [x [Ex Hx]].
    pose proof (inv_fresh _ HI x Hx); lia.
  - intros r; rewrite Hst; intros Hr.
    destruct (in_adjusted_stocks _ _ _ _ _ _ Hr) as [Hr'|[->|[x [Hx ->]]]].
    + pose proof (inv_fresh _ HI r Hr'); lia.
    + simpl; apply Hc; unfold stocks_of.
      destruct (filter (stock_matches pv wh) (stocks s)) eqn:Hf; [reflexivity|].
      exfalso; unfold adjusted_stocks in Hr; rewrite Hf in Hr.
      apply in_map_iff in Hr as [y [Ey Hy]].
      pose proof (inv_fresh _ HI y Hy) as Hlt; apply (f_equal stock_id) in Ey.
      destruct (stock_matches pv wh y); simpl in Ey; lia.
    + pose proof (inv_fresh _ HI x Hx); simpl; lia.
  - intros pv' wh'; unfold stocks_of; rewrite Hst, filter_adjusted_stocks.
    pose proof (inv_unique _ HI pv' wh') as Hu; unfold stocks_of in Hu.
    destruct (Nat.eqb pv pv' && Nat.eqb wh wh') eqn:Hk; [|exact Hu].
    apply andb_true_iff in Hk as [E1 E2]; apply Nat.eqb_eq in E1, E2; subst pv' wh'.
    destruct (filter (stock_matches pv wh) (stocks s)); simpl in *; [lia|].
    rewrite length_map; exact Hu.
  - intros pv' wh' r; unfold stocks_of; rewrite Hst, filter_adjusted_stocks, Hl.
    pose proof (inv_ledger _ HI pv' wh') as HL; unfold stocks_of in HL.
    destruct (Nat.eqb pv pv' && Nat.eqb wh wh') eqn:Hk.
    + apply andb_true_iff in Hk as [E1 E2]; apply Nat.eqb_eq in E1, E2; subst pv' wh'.
      destruct (filter (stock_matches pv wh) (stocks s)) as [|x f] eqn:Hf.
      * intros [<-|[]]; simpl.
        rewrite (inv_ledger_none _ HI pv wh) by exact Hf; lia.
      * intros Hr; apply in_map_iff in Hr as [y [<- Hy]]; simpl.
        rewrite (HL y Hy); lia.
    + intros Hr; rewrite (HL r Hr); lia.
  - intros pv' wh'; unfold stocks_of; rewrite Hst, filter_adjusted_stocks, Hl.
    destruct (Nat.eqb pv pv' && Nat.eqb wh wh') eqn:Hk.
    + destruct (filter (stock_matches pv wh) (stocks s)); discriminate.
    + intros H0; rewrite (inv_ledger_none _ HI pv' wh' H0); lia.
  - intros r; rewrite Hst; intros Hr.
    destruct (in_adjusted_stocks _ _ _ _ _ _ Hr) as [Hr'|[->|[x [Hx ->]]]].
    + exact (inv_reserved _ HI r Hr').
    + reflexivity.
    + exact (inv_reserved _ HI x Hx).
Qed.

(** Operations that write neither the stock table nor the movements keep
    the invariant. *)
Lemma Inv_frame s s' :
  Inv s -> stocks s' = stocks s -> movements s' = movements s ->
  next_uuid s <= next_uuid s' -> Inv s'.
Proof.
  intros HI Hst Hm Hn.
  assert (Hof : forall pv wh, stocks_of s' pv wh = stocks_of s pv wh)
    by (intros; unfold stocks_of; rewrite Hst; reflexivity).
  assert (Hl : forall pv wh, ledger_sum s' pv wh = ledger_sum s pv wh)
    by (intros; unfold ledger_sum; rewrite Hm; reflexivity).
  constructor; intros; rewrite ?Hof, ?Hl, ?Hst in *.
  - exact (inv_ids _ HI).
  - pose proof (inv_fresh _ HI r H); lia.
  - apply (inv_unique _ HI).
  - apply (inv_ledger _ HI); assumption.
  - apply (inv_ledger_none _ HI); assumption.
  - apply (inv_reserved _ HI); assumption.
Qed.

Lemma Inv_empty : Inv empty_db.
Proof.
  constructor; simpl.
  - constructor.
  - intros _ [].
  - intros; simpl; lia.
  - intros _ _ _ [].
  - reflexivity.
  - intros _ [].
Qed.

Lemma ledger_sum_pending_completion s a s' mid :
  movements s' = movements s ++ adjustment_rows a mid ->
  forall pv wh, ledger_sum s' pv wh =
    (ledger_sum s pv wh +
     if Nat.eqb (sa_product_variant a) pv && Nat.eqb (sa_warehouse a) wh
     then quantity_discrepancy a else 0)%Z.
Proof.
  intros Hm pv wh.
  transitivity (ledger_sum (set_movements (movements s ++ adjustment_rows a mid) s) pv wh).
  - unfold ledger_sum; rewrite Hm; reflexivity.
  - apply ledger_sum_adjustment_rows.
Qed.

Lemma Inv_complete_audit s now a b a' s' :
  Inv s -> complete_audit now a s = inr (b, a', s') -> Inv s'.
Proof.
  intros HI Hc; destruct (is_completed a) eqn:Hp.
  - unfold complete_audit in Hc; rewrite Hp in Hc; injection Hc as _ _ <-; exact HI.
  - destruct (complete_audit_pending_effect s now a HI Hp)
      as [s1 [mid [Heq [Hst [Hm [_ [Hn Hcr]]]]]]].
    rewrite Heq in Hc; injection Hc as _ _ <-.
    eapply Inv_adjust; eauto.
    eapply ledger_sum_pending_completion; eauto.
Qed.

Lemma Inv_run_db_op s op : Inv s -> Inv (run_db_op s op).
Proof.
  intros HI; destruct op as [pv wh|pv wh before recorded photo|aid recorded photo|aid now|aid|h recorded photo|h|h now];
    unfold run_db_op; try exact HI.
  - unfold get_or_create.
    destruct (filter (stock_matches pv wh) (stocks s)) as [|r [|r2 l]] eqn:Hf;
      try exact HI.
    apply (Inv_adjust s _ pv wh 0); [exact HI| | |simpl; lia|simpl; lia].
    + unfold adjusted_stocks; rewrite Hf; reflexivity.
    + intros pv' wh'; unfold ledger_sum; simpl; destruct (_ && _); lia.
  - apply Inv_frame with s; simpl; auto.
  - destruct (load_audit aid s); [exact HI|].
    apply Inv_frame with s; simpl; auto.
  - destruct (load_audit aid s) as [e|a]; [exact HI|].
    destruct (complete_audit now a s) as [e|[[b a'] s']] eqn:Hc; [exact HI|].
    exact (Inv_complete_audit _ _ _ _ _ _ HI Hc).
Qed.

Lemma Inv_run_op st op : Inv (sess_db st) -> Inv (sess_db (run_op st op)).
Proof.
  intros HI; destruct op as [pv wh|pv wh before recorded photo|aid recorded photo|aid now|aid|h recorded photo|h|h now];
    unfold run_op; cbv zeta; try (apply Inv_run_db_op; exact HI).
  - destruct (load_audit aid (sess_db st)); exact HI.
  - destruct (nth_error (handles st) h); exact HI.
  - destruct (nth_error (handles st) h) as [a|]; [|exact HI].
    apply Inv_frame with (sess_db st); simpl; auto.
  - destruct (nth_error (handles st) h) as [a|]; [|exact HI].
    destruct (complete_audit now a (sess_db st)) as [e|[[b a'] s']] eqn:Hc; [exact HI|].
    exact (Inv_complete_audit _ _ _ _ _ _ HI Hc).
Qed.

Lemma Inv_run_from ops st : Inv (sess_db st) -> Inv (sess_db (run_from st ops)).
Proof.
  revert st; induction ops as [|op ops IH]; simpl; intros st HI; [exact HI|].
  apply IH, Inv_run_op, HI.
Qed.

Lemma Inv_run ops : Inv (run ops).
Proof. apply Inv_run_from, Inv_empty. Qed.

(** The stock records of one pair after [complete_audit]. *)
Lemma stocks_of_complete_audit s now a b a' s' pv wh :
  Inv s -> complete_audit now a s = inr (b, a', s') ->
  stocks_of s' pv wh =
  if is_completed a then stocks_of s pv wh
  else if Nat.eqb (sa_product_variant a) pv && Nat.eqb (sa_warehouse a) wh then
    match stocks_of s pv wh with
    | [] => [mkStock (next_uuid s) pv wh (quantity_discrepancy a) 0]
    | f => map (fun r => set_quantity (quantity r + quantity_discrepancy a) r) f
    end
  else stocks_of s pv wh.
Proof.
  intros HI Hc; destruct (is_completed a) eqn:Hp.
  - unfold complete_audit in Hc; rewrite Hp in Hc; injection Hc as _ _ <-; reflexivity.
  - destruct (complete_audit_pending_effect s now a HI Hp)
      as [s1 [mid [Heq [Hst _]]]].
    rewrite Heq in Hc; injection Hc as _ _ <-.
    unfold stocks_of; rewrite Hst, filter_adjusted_stocks.
    destruct (Nat.eqb (sa_product_variant a) pv && Nat.eqb (sa_warehouse a) wh) eqn:Hk;
      [|reflexivity].
    apply andb_true_iff in Hk as [E1 E2]; apply Nat.eqb_eq in E1, E2; subst pv wh.
    reflexivity.
Qed.

Lemma in_length_le_1 {A} (l : list A) x y :
  length l <= 1 -> In x l -> In y l -> x = y.
Proof.
  destruct l as [|z [|w l]]; simpl; intros Hl Hx Hy; try lia; try tauto.
  destruct Hx as [<-|[]], Hy as [<-|[]]; reflexivity.
Qed.

Lemma set_quantity_same r : set_quantity (quantity r) r = r.
Proof. destruct r; reflexivity. Qed.

Lemma stocks_of_sample : stocks_of (run sample_ops) 7 1 = [sample_stock].
Proof. vm_compute; reflexivity. Qed.

(** Completion writes only the two completion columns of the audit table
    and never lowers the UUID counter. *)
Lemma complete_audit_shape s now a b a' s' :
  complete_audit now a s = inr (b, a', s') ->
  audits s' = (if is_completed a then audits s
               else audits (save_completion_fields (mark_completed now a) s)) /\
  next_uuid s <= next_uuid s'.
Proof.
  unfold complete_audit; destruct (is_completed a).
  - intros H; injection H as _ _ <-; split; [reflexivity|lia].
  - unfold get_or_create.
    destruct (filter (stock_matches (sa_product_variant a) (sa_warehouse a)) (stocks s))
      as [|r [|r2 l]]; [| |discriminate];
      destruct (negb (Z.eqb (quantity_discrepancy a) 0));
      intros H; injection H as _ _ <-; simpl; split; try reflexivity; lia.
Qed.


Lemma load_audit_spec aid s a :
  load_audit aid s = inr a -> audit_id a = aid /\ In a (audits s).
Proof.
  unfold load_audit.
  destruct (filter (fun a => Nat.eqb (audit_id a) aid) (audits s)) as [|x [|y l]] eqn:Hf;
    try discriminate.
  intros H; injection H as <-.
  assert (Hx : In x (filter (fun a => Nat.eqb (audit_id a) aid) (audits s)))
    by (rewrite Hf; left; reflexivity).
  apply filter_In in Hx as [Hx E]; apply Nat.eqb_eq in E; auto.
Qed.

Lemma load_audit_same aid aid' s a b :
  load_audit aid s = inr a -> load_audit aid' s = inr b ->
  audit_id a = audit_id b -> a = b.
Proof.
  intros Ha Hb E.
  destruct (load_audit_spec _ _ _ Ha) as [Ea _], (load_audit_spec _ _ _ Hb) as [Eb _].
  rewrite <- Ea, E, Eb, Hb in Ha; congruence.
Qed.

(** Rewriting the audit rows with a map that keeps their ids. *)
Lemma load_audit_map aid s s' f a :
  (forall x, audit_id (f x) = audit_id x) ->
  audits s' = map f (audits s) ->
  load_audit aid s = inr a -> load_audit aid s' = inr (f a).
Proof.
  intros Hid Hs Hl; unfold load_audit in *; rewrite Hs.
  rewrite filter_map_keep by (intros x; rewrite Hid; reflexivity).
  destruct (filter (fun a => Nat.eqb (audit_id a) aid) (audits s)) as [|x [|y l]];
    try discriminate.
  injection Hl as <-; reflexivity.
Qed.

Lemma audit_id_completion_row a x :
  audit_id (if Nat.eqb (audit_id x) (audit_id a)
            then mkStockAudit (audit_id x) (sa_product_variant x) (sa_warehouse x)
                   (quantity_before_audit x) (quantity_recorded x) (photo_taken x)
                   (is_completed a) (completed_at a)
            else x) = audit_id x.
Proof. destruct (Nat.eqb (audit_id x) (audit_id a)); reflexivity. Qed.






Lemma AInv_save_audit x s : AInv s -> AInv (save_audit x s).
Proof.
  unfold AInv, save_audit, set_audits; cbn [audits next_uuid]; intros HA y Hy.
  apply in_map_iff in Hy as [z [<- Hz]].
  destruct (Nat.eqb (audit_id z) (audit_id x)) eqn:E.
  - apply Nat.eqb_eq in E; rewrite <- E; apply HA, Hz.
  - apply HA, Hz.
Qed.

Lemma AInv_complete_audit now x s b x' s' :
  AInv s -> complete_audit now x s = inr (b, x', s') -> AInv s'.
Proof.
  unfold AInv; intros HA Hc.
  destruct (complete_audit_shape _ _ _ _ _ _ Hc) as [Ha Hn].
  intros y Hy; rewrite Ha in Hy.
  destruct (is_completed x); [apply HA in Hy; lia|].
  unfold save_completion_fields, set_audits in Hy; cbn [audits] in Hy.
  apply in_map_iff in Hy as [z [<- Hz]].
  rewrite audit_id_completion_row; apply HA in Hz; lia.
Qed.

Lemma AInv_run_db_op s op : AInv s -> AInv (run_db_op s op).
Proof.
  intros HA; destruct op as [pv wh|pv wh before recorded photo|aid recorded photo|aid now|aid|h recorded photo|h|h now];
    cbn [run_db_op]; try exact HA.
  - unfold get_or_create; unfold AInv in *.
    destruct (filter (stock_matches pv wh) (stocks s)) as [|r [|r2 l]]; simpl;
      intros x Hx; try apply HA in Hx; try lia; auto.
  - unfold AInv in *; simpl; intros x Hx; apply in_app_iff in Hx as [Hx|[<-|[]]]; simpl;
      [apply HA in Hx; lia|lia].
  - destruct (load_audit aid s) as [e|b]; [exact HA|].
    apply AInv_save_audit, HA.
  - destruct (load_audit aid s) as [e|b]; [exact HA|].
    destruct (complete_audit now b s) as [e|[[c b'] s']] eqn:Hc; [exact HA|].
    exact (AInv_complete_audit _ _ _ _ _ _ HA Hc).
Qed.

Lemma AInv_run_op st op : AInv (sess_db st) -> AInv (sess_db (run_op st op)).
Proof.
  intros HA; destruct op as [pv wh|pv wh before recorded photo|aid recorded photo|aid now|aid|h recorded photo|h|h now];
    unfold run_op; cbv zeta; try (apply AInv_run_db_op; exact HA).
  - destruct (load_audit aid (sess_db st)); exact HA.
  - destruct (nth_error (handles st) h); exact HA.
  - destruct (nth_error (handles st) h) as [a|]; [|exact HA].
    apply AInv_save_audit, HA.
  - destruct (nth_error (handles st) h) as [a|]; [|exact HA].
    destruct (complete_audit now a (sess_db st)) as [e|[[b a'] s']] eqn:Hc; [exact HA|].
    exact (AInv_complete_audit _ _ _ _ _ _ HA Hc).
Qed.

Lemma AInv_run_from ops st : AInv (sess_db st) -> AInv (sess_db (run_from st ops)).
Proof.
  revert st; induction ops as [|op ops IH]; simpl; intros st HA; [exact HA|].
  apply IH, AInv_run_op, HA.
Qed.

Lemma AInv_run ops : AInv (run ops).
Proof. apply AInv_run_from; intros a []. Qed.

(** Saving an instance writes its row: a completed row keeps its state
    unless the instance saved over it differs in those two columns. *)
Lemma load_audit_save_audit aid s a x :
  load_audit aid s = inr a ->
  load_audit aid (save_audit x s) =
  inr (if Nat.eqb (audit_id a) (audit_id x) then x else a).
Proof.
  intros Hl; apply (load_audit_map aid s _ (fun y => if Nat.eqb (audit_id y) (audit_id x)
                                                   then x else y) a); [|reflexivity|exact Hl].
  intros y; destruct (Nat.eqb_spec (audit_id y) (audit_id x)); auto.
Qed.

(** One operation of the shorthands or of stock creation never takes a
    completed audit row back to pending. *)
Lemma completed_audit_db_step s op aid a :
  AInv s -> load_audit aid s = inr a -> is_completed a = true ->
  exists a', load_audit aid (run_db_op s op) = inr a' /\
    is_completed a' = true /\ completed_at a' = completed_at a.
Proof.
  intros HA Hl Hp.
  destruct op as [pv wh|pv wh before recorded photo|aid' recorded photo|aid' now|aid'|h recorded photo|h|h now];
    cbn [run_db_op]; try (exists a; auto; fail).
  - destruct (get_or_create pv wh s) as [e|[[st c] s']] eqn:Hg; [eauto|].
    exists a; split; [|auto].
    unfold get_or_create in Hg.
    destruct (filter (stock_matches pv wh) (stocks s)) as [|r [|r2 l]];
      [| |discriminate]; injection Hg as _ _ <-; exact Hl.
  - exists a; split; [|auto].
    destruct (load_audit_spec _ _ _ Hl) as [Ea Ha].
    pose proof (HA a Ha) as Hlt.
    unfold load_audit in *; simpl; rewrite filter_app; simpl.
    destruct (Nat.eqb_spec (next_uuid s) aid) as [E|E]; [lia|].
    rewrite app_nil_r; exact Hl.
  - destruct (load_audit aid' s) as [e|b] eqn:Hb; [eauto|].
    rewrite (load_audit_save_audit _ _ _ _ Hl).
    eexists; split; [reflexivity|].
    destruct (Nat.eqb_spec (audit_id a) (audit_id (edit_audit recorded photo b))) as [E|E];
      [|auto].
    rewrite (load_audit_same _ _ _ _ _ Hl Hb E); rewrite (load_audit_same _ _ _ _ _ Hl Hb E) in Hp.
    split; [exact Hp|reflexivity].
  - destruct (load_audit aid' s) as [e|b] eqn:Hb; [eauto|].
    destruct (complete_audit now b s) as [e|[[c b'] s']] eqn:Hc; [eauto|].
    destruct (complete_audit_shape _ _ _ _ _ _ Hc) as [Ha _].
    destruct (is_completed b) eqn:Hpb.
    + unfold complete_audit in Hc; rewrite Hpb in Hc; injection Hc as _ _ <-; eauto.
    + eexists; split.
      * exact (load_audit_map aid s s' _ a (audit_id_completion_row (mark_completed now b))
                 Ha Hl).
      * destruct (Nat.eqb_spec (audit_id a) (audit_id (mark_completed now b))) as [E|E];
          [|auto].
        simpl in E; rewrite (load_audit_same _ _ _ _ _ Hl Hb E) in Hp; congruence.
Qed.

(** One operation of a session on a completed audit row: the row stays
    completed with the same [completed_at], unless the operation saves a
    held instance of that audit that is pending or has another
    [completed_at], or completes a held instance of that audit that is
    pending. *)
Lemma completed_audit_step st op aid a :
  AInv (sess_db st) -> load_audit aid (sess_db st) = inr a -> is_completed a = true ->
  (exists a', load_audit aid (sess_db (run_op st op)) = inr a' /\
     is_completed a' = true /\ completed_at a' = completed_at a) \/
  (exists h x, op = OpSaveHandle h /\ nth_error (handles st) h = Some x /\
     audit_id x = aid /\ (is_completed x = false \/ completed_at x <> completed_at a)) \/
  (exists h x now, op = OpCompleteHandle h now /\ nth_error (handles st) h = Some x /\
     audit_id x = aid /\ is_completed x = false).
Proof.
  intros HA Hl Hp.
  destruct (load_audit_spec _ _ _ Hl) as [Ea _].
  destruct op as [pv wh|pv wh before recorded photo|aid' recorded photo|aid' now|aid'|h recorded photo|h|h now];
    unfold run_op; cbv zeta;
    try (left; apply completed_audit_db_step; assumption).
  - left; destruct (load_audit aid' (sess_db st)); exists a; auto.
  - left; destruct (nth_error (handles st) h); exists a; auto.
  - destruct (nth_error (handles st) h) as [x|] eqn:Hx; [|left; exists a; auto].
    cbn [sess_db]; rewrite (load_audit_save_audit _ _ _ _ Hl).
    destruct (Nat.eqb_spec (audit_id a) (audit_id x)) as [E|E]; [|left; exists a; auto].
    assert (Hd : {completed_at x = completed_at a} + {completed_at x <> completed_at a})
      by (decide equality; apply Nat.eq_dec).
    destruct (is_completed x) eqn:Hc, Hd as [Ht|Ht].
    + left; exists x; repeat split; assumption.
    + right; left; exists h, x; repeat split; [assumption|congruence|right; exact Ht].
    + right; left; exists h, x; repeat split; [assumption|congruence|left; exact Hc].
    + right; left; exists h, x; repeat split; [assumption|congruence|left; exact Hc].
  - destruct (nth_error (handles st) h) as [x|] eqn:Hx; [|left; exists a; auto].
    destruct (complete_audit now x (sess_db st)) as [e|[[c x'] s']] eqn:Hc;
      [left; exists a; auto|].
    cbn [sess_db].
    destruct (complete_audit_shape _ _ _ _ _ _ Hc) as [Ha _].
    destruct (is_completed x) eqn:Hpx.
    + unfold complete_audit in Hc; rewrite Hpx in Hc; injection Hc as _ _ <-.
      left; exists a; auto.
    + destruct (Nat.eqb_spec (audit_id x) aid) as [E|E].
      * right; right; exists h, x, now; auto.
      * left; eexists; split.
        -- exact (load_audit_map aid (sess_db st) s' _ a
                    (audit_id_completion_row (mark_completed now x)) Ha Hl).
        -- cbn [audit_id mark_completed].
           destruct (Nat.eqb_spec (audit_id a) (audit_id x)) as [E'|E']; [congruence|auto].
Qed.

Example ex_scenario :
  let s := run [OpGetOrCreateStock 7 1; OpCreateAudit 7 1 100 92 None;
                OpCompleteAudit 1 5] in
  map quantity (stocks s) = [(-8)%Z] /\
  map quantity_changed (movements s) = [(-8)%Z] /\
  map is_completed (audits s) = [true].
Proof. vm_compute. repeat split. Qed.

(** * The claims *)

(** C1 (ledger consistency).  On every database reached from the empty one
    by any sequence of operations, every stock record of a pair holds the
    sum of the [quantity_changed] of the movements of that pair, and a pair
    with no record has no net movement.  Completing a pending audit keeps
    this: it succeeds, adds the discrepancy to the pair's quantity, and
    appends movements whose changes are exactly [[discrepancy]] when the
    discrepancy is non-zero and nothing otherwise. *)
Theorem ledger_consistency (ops : list Op) :
  (forall pv wh r, In r (stocks_of (run ops) pv wh) ->
     quantity r = ledger_sum (run ops) pv wh) /\
  (forall pv wh, stocks_of (run ops) pv wh = [] -> ledger_sum (run ops) pv wh = 0%Z) /\
  (forall now a, is_completed a = false ->
     exists s' added,
       complete_audit now a (run ops) = inr (true, mark_completed now a, s') /\
       movements s' = movements (run ops) ++ added /\
       map quantity_changed added =
         (if Z.eqb (quantity_discrepancy a) 0 then [] else [quantity_discrepancy a]) /\
       (forall r r', In r (stocks_of (run ops) (sa_product_variant a) (sa_warehouse a)) ->
          In r' (stocks_of s' (sa_product_variant a) (sa_warehouse a)) ->
          quantity r' = (quantity r + quantity_discrepancy a)%Z) /\
       (forall pv wh r, In r (stocks_of s' pv wh) -> quantity r = ledger_sum s' pv wh)).
Proof.
  pose proof (Inv_run ops) as HI.
  split; [exact (inv_ledger _ HI)|].
  split; [exact (inv_ledger_none _ HI)|].
  intros now a Hp.
  destruct (complete_audit_pending_effect _ now a HI Hp)
    as [s' [mid [Heq [Hst [Hm [_ [Hn Hcr]]]]]]].
  exists s', (adjustment_rows a mid); split; [exact Heq|]; split; [exact Hm|]; split.
  { unfold adjustment_rows; destruct (Z.eqb (quantity_discrepancy a) 0); reflexivity. }
  split.
  - intros r r' Hr Hr'.
    rewrite (stocks_of_complete_audit _ _ _ _ _ _ _ _ HI Heq), Hp, !Nat.eqb_refl in Hr'.
    cbn [andb] in Hr'.
    destruct (stocks_of (run ops) (sa_product_variant a) (sa_warehouse a)) as [|x f] eqn:Hf;
      [destruct Hr|].
    apply in_map_iff in Hr' as [y [<- Hy]].
    rewrite <- Hf in Hr, Hy.
    rewrite (in_length_le_1 _ _ _ (inv_unique _ HI _ _) Hy Hr); reflexivity.
  - apply (inv_ledger _ (Inv_complete_audit _ _ _ _ _ _ HI Heq)).
Qed.

Lemma ledger_consistency_witness :
  quantity sample_stock = ledger_sum (run sample_ops) 7 1 /\
  ledger_sum (run sample_ops) 8 1 = 0%Z /\
  (exists s' added,
     complete_audit 2 sample_audit (run sample_ops) =
       inr (true, mark_completed 2 sample_audit, s') /\
     movements s' = movements (run sample_ops) ++ added /\
     map quantity_changed added = [(-8)%Z] /\
     (forall r r', In r (stocks_of (run sample_ops) 7 1) ->
        In r' (stocks_of s' 7 1) -> quantity r' = (quantity r + (-8))%Z) /\
     (forall pv wh r, In r (stocks_of s' pv wh) -> quantity r = ledger_sum s' pv wh)).
Proof.
  destruct (ledger_consistency sample_ops) as [H1 [H2 H3]].
  split; [apply (H1 7 1); rewrite stocks_of_sample; left; reflexivity|].
  split; [apply H2; vm_compute; reflexivity|].
  exact (H3 2 sample_audit eq_refl).
Defined.

(** C2 (discrepancy correctness).  On every reachable database, completing
    a pending audit succeeds; when the discrepancy
    [quantity_recorded - quantity_before_audit] is zero no movement is
    written, and otherwise exactly one movement of type [ADJUSTMENT] for the
    audited pair, with [quantity_changed] equal to the discrepancy and
    [related_audit] pointing to the audit, is appended; the pair's record
    (the same row) changes by exactly the discrepancy from its quantity at
    completion time. *)
Theorem discrepancy_correctness (ops : list Op) (now : datetime) (a : StockAudit) :
  is_completed a = false ->
  exists s',
    complete_audit now a (run ops) = inr (true, mark_completed now a, s') /\
    (quantity_discrepancy a = 0%Z -> movements s' = movements (run ops)) /\
    (quantity_discrepancy a <> 0%Z ->
       exists m, movements s' = movements (run ops) ++ [m] /\
         quantity_changed m = quantity_discrepancy a /\
         movement_type m = ADJUSTMENT /\
         related_audit m = Some (audit_id a) /\
         sm_product_variant m = sa_product_variant a /\
         sm_warehouse m = sa_warehouse a) /\
    (forall r, In r (stocks_of (run ops) (sa_product_variant a) (sa_warehouse a)) ->
       exists r', stocks_of s' (sa_product_variant a) (sa_warehouse a) = [r'] /\
         stock_id r' = stock_id r /\
         quantity r' = (quantity r + quantity_discrepancy a)%Z).
Proof.
  intros Hp; pose proof (Inv_run ops) as HI.
  destruct (complete_audit_pending_effect _ now a HI Hp)
    as [s' [mid [Heq [Hst [Hm _]]]]].
  exists s'; split; [exact Heq|].
  unfold adjustment_rows in Hm.
  split; [|split].
  - intros Hd; rewrite Hm, Hd; simpl; apply app_nil_r.
  - intros Hd; apply Z.eqb_neq in Hd; rewrite Hd in Hm.
    eexists; split; [exact Hm|]; repeat split.
  - intros r Hr.
    rewrite (stocks_of_complete_audit _ _ _ _ _ _ _ _ HI Heq), Hp, !Nat.eqb_refl.
    cbn [andb].
    pose proof (inv_unique _ HI (sa_product_variant a) (sa_warehouse a)) as Hu.
    destruct (stocks_of (run ops) (sa_product_variant a) (sa_warehouse a))
      as [|x [|y f]]; [destruct Hr| |simpl in Hu; lia].
    destruct Hr as [<-|[]].
    eexists; split; [reflexivity|]; split; reflexivity.
Qed.

(** The example of the specification: 100 expected, 92 counted, on a record
    holding 100 units at completion time. *)
Lemma discrepancy_correctness_witness :
  is_completed sample_audit = false /\
  exists s',
    complete_audit 2 sample_audit (run sample_ops) =
      inr (true, mark_completed 2 sample_audit, s') /\
    (quantity_discrepancy sample_audit = 0%Z -> movements s' = movements (run sample_ops)) /\
    (quantity_discrepancy sample_audit <> 0%Z ->
       exists m, movements s' = movements (run sample_ops) ++ [m] /\
         quantity_changed m = (-8)%Z /\ movement_type m = ADJUSTMENT /\
         related_audit m = Some 3 /\ sm_product_variant m = 7 /\ sm_warehouse m = 1) /\
    (forall r, In r (stocks_of (run sample_ops) 7 1) ->
       exists r', stocks_of s' 7 1 = [r'] /\ stock_id r' = stock_id r /\
         quantity r' = (quantity r + (-8))%Z).
Proof.
  split; [reflexivity|].
  exact (discrepancy_correctness sample_ops 2 sample_audit eq_refl).
Defined.

(** C6 (stock record uniqueness and lazy creation).  On every reachable
    database a pair has at most one stock record; [get_or_create] returns
    the pair's record when there is one, without writing, and otherwise
    inserts exactly one record with [quantity = 0] and
    [reserved_quantity = 0]. *)
Theorem stock_get_or_create_unique :
  (forall ops pv wh, length (stocks_of (run ops) pv wh) <= 1) /\
  (forall s pv wh r, stocks_of s pv wh = [r] -> get_or_create pv wh s = inr (r, false, s)) /\
  (forall s pv wh, stocks_of s pv wh = [] ->
     exists s', get_or_create pv wh s = inr (mkStock (next_uuid s) pv wh 0 0, true, s') /\
       stocks s' = stocks s ++ [mkStock (next_uuid s) pv wh 0 0] /\
       stocks_of s' pv wh = [mkStock (next_uuid s) pv wh 0 0]).
Proof.
  split; [intros ops; exact (inv_unique _ (Inv_run ops))|].
  split.
  - intros s pv wh r Hf; unfold get_or_create; unfold stocks_of in Hf; rewrite Hf.
    reflexivity.
  - intros s pv wh Hf; unfold get_or_create; unfold stocks_of in Hf |- *; rewrite Hf.
    eexists; split; [reflexivity|]; split; [reflexivity|]; simpl.
    rewrite filter_app, Hf; simpl; unfold stock_matches; simpl.
    rewrite !Nat.eqb_refl; reflexivity.
Qed.

Lemma stock_get_or_create_unique_witness :
  length (stocks_of (run sample_ops) 7 1) <= 1 /\
  get_or_create 7 1 (run sample_ops) = inr (sample_stock, false, run sample_ops) /\
  exists s', get_or_create 8 1 (run sample_ops) = inr (mkStock 3 8 1 0 0, true, s') /\
    stocks s' = stocks (run sample_ops) ++ [mkStock 3 8 1 0 0] /\
    stocks_of s' 8 1 = [mkStock 3 8 1 0 0].
Proof.
  destruct stock_get_or_create_unique as [H1 [H2 H3]].
  split; [apply H1|].
  split; [apply H2; exact stocks_of_sample|].
  apply (H3 (run sample_ops) 8 1); vm_compute; reflexivity.
Defined.

(** C8 (frame of audit completion).  On every reachable database, a call of
    [complete_audit] leaves the stock records of every other pair exactly as
    they were; the audited pair's record differs from its earlier state in
    the [quantity] field only (so its [reserved_quantity] is unchanged), and
    a record created by the call has [reserved_quantity = 0]. *)
Theorem complete_audit_frame (ops : list Op) (now : datetime) (a a' : StockAudit)
  (b : bool) (s' : DB) :
  complete_audit now a (run ops) = inr (b, a', s') ->
  (forall pv wh, (pv, wh) <> (sa_product_variant a, sa_warehouse a) ->
     stocks_of s' pv wh = stocks_of (run ops) pv wh) /\
  (forall r r', In r (stocks_of (run ops) (sa_product_variant a) (sa_warehouse a)) ->
     In r' (stocks_of s' (sa_product_variant a) (sa_warehouse a)) ->
     exists q, r' = set_quantity q r) /\
  (stocks_of (run ops) (sa_product_variant a) (sa_warehouse a) = [] ->
     forall r', In r' (stocks_of s' (sa_product_variant a) (sa_warehouse a)) ->
     reserved_quantity r' = 0%Z).
Proof.
  intros Hc; pose proof (Inv_run ops) as HI.
  pose proof (fun pv wh => stocks_of_complete_audit _ _ _ _ _ _ pv wh HI Hc) as Hof.
  pose proof (inv_unique _ HI (sa_product_variant a) (sa_warehouse a)) as Hu.
  split; [|split].
  - intros pv wh Hne; rewrite Hof.
    destruct (is_completed a); [reflexivity|].
    destruct (Nat.eqb (sa_product_variant a) pv && Nat.eqb (sa_warehouse a) wh) eqn:Hk;
      [|reflexivity].
    apply andb_true_iff in Hk as [E1 E2]; apply Nat.eqb_eq in E1, E2; subst; tauto.
  - intros r r' Hr Hr'; rewrite Hof, !Nat.eqb_refl in Hr'; cbn [andb] in Hr'.
    destruct (is_completed a).
    + exists (quantity r); rewrite set_quantity_same.
      exact (in_length_le_1 _ _ _ Hu Hr' Hr).
    + destruct (stocks_of (run ops) (sa_product_variant a) (sa_warehouse a))
        as [|x f] eqn:Hf; [destruct Hr|].
      apply in_map_iff in Hr' as [y [<- Hy]].
      rewrite <- Hf in Hy, Hu, Hr.
      rewrite (in_length_le_1 _ _ _ Hu Hy Hr); eexists; reflexivity.
  - intros H0 r' Hr'; rewrite Hof, H0, !Nat.eqb_refl in Hr'; cbn [andb] in Hr'.
    destruct (is_completed a); [destruct Hr'|].
    destruct Hr' as [<-|[]]; reflexivity.
Qed.

Lemma complete_audit_frame_witness :
  complete_audit 2 sample_audit (run sample_ops) =
    inr (true, mark_completed 2 sample_audit,
         match complete_audit 2 sample_audit (run sample_ops) with
         | inr (_, _, s') => s' | inl _ => run sample_ops end) /\
  let s' := match complete_audit 2 sample_audit (run sample_ops) with
            | inr (_, _, s') => s' | inl _ => run sample_ops end in
  (forall pv wh, (pv, wh) <> (7, 1) -> stocks_of s' pv wh = stocks_of (run sample_ops) pv wh) /\
  (forall r r', In r (stocks_of (run sample_ops) 7 1) -> In r' (stocks_of s' 7 1) ->
     exists q, r' = set_quantity q r) /\
  (stocks_of (run sample_ops) 7 1 = [] ->
     forall r', In r' (stocks_of s' 7 1) -> reserved_quantity r' = 0%Z).
Proof.
  split; [vm_compute; reflexivity|].
  exact (complete_audit_frame sample_ops 2 sample_audit _ true _ (eq_refl _)).
Defined.

(** C9 (lazy creation on audit completion).  On any database, completing a
    pending audit whose pair has no stock record succeeds and leaves the
    pair with exactly one record, created with [reserved_quantity = 0] and
    holding [quantity_recorded - quantity_before_audit], negative or not. *)
Theorem complete_audit_lazy_creation (s : DB) (now : datetime) (a : StockAudit) :
  is_completed a = false ->
  stocks_of s (sa_product_variant a) (sa_warehouse a) = [] ->
  exists s',
    complete_audit now a s = inr (true, mark_completed now a, s') /\
    stocks_of s' (sa_product_variant a) (sa_warehouse a) =
      [mkStock (next_uuid s) (sa_product_variant a) (sa_warehouse a)
         (quantity_recorded a - quantity_before_audit a) 0].
Proof.
  intros Hp Hf; unfold stocks_of in Hf.
  unfold complete_audit; rewrite Hp; unfold get_or_create; rewrite Hf.
  eexists; split; [reflexivity|].
  unfold stocks_of.
  destruct (negb (Z.eqb (quantity_discrepancy a) 0)); simpl;
    rewrite filter_map_keep by (intros y; apply stock_matches_adjust);
    rewrite filter_app, Hf; simpl; unfold stock_matches at 1; simpl;
    rewrite !Nat.eqb_refl; simpl; rewrite Nat.eqb_refl; reflexivity.
Qed.

(** A count of 3 where 10 were expected, on the empty database. *)
Lemma complete_audit_lazy_creation_witness :
  is_completed (mkStockAudit 0 7 1 10 3 None false None) = false /\
  stocks_of empty_db 7 1 = [] /\
  exists s',
    complete_audit 5 (mkStockAudit 0 7 1 10 3 None false None) empty_db =
      inr (true, mark_completed 5 (mkStockAudit 0 7 1 10 3 None false None), s') /\
    stocks_of s' 7 1 = [mkStock 0 7 1 (-7) 0].
Proof.
  split; [reflexivity|]; split; [reflexivity|].
  exact (complete_audit_lazy_creation empty_db 5 (mkStockAudit 0 7 1 10 3 None false None)
           eq_refl eq_refl).
Defined.




(** C4, counterexample: on the database where variant 7 in warehouse 1
    holds 5 units, completing an audit that expected 10 and counted 2
    succeeds and leaves the record at -3; no negative-stock error is
    raised. *)
Lemma nonnegativity_counterexample :
  let s := run [OpCreateAudit 7 1 0 5 None; OpCompleteAudit 0 1;
                OpCreateAudit 7 1 10 2 None] in
  load_audit 3 s = inr (mkStockAudit 3 7 1 10 2 None false None) /\
  map quantity (stocks_of s 7 1) = [5%Z] /\
  exists s',
    complete_audit 2 (mkStockAudit 3 7 1 10 2 None false None) s =
      inr (true, mark_completed 2 (mkStockAudit 3 7 1 10 2 None false None), s') /\
    map quantity (stocks_of s' 7 1) = [(-3)%Z].
Proof.
  vm_compute; split; [reflexivity|]; split; [reflexivity|].
  eexists; split; [reflexivity|]; vm_compute; reflexivity.
Qed.

(** C4, as the code has it: no operation checks the sign of a quantity.
    On every reachable database, completing a pending audit succeeds
    whatever the resulting quantity, and [reserved_quantity], which no
    operation writes, is 0 on every record. *)
Theorem no_negative_stock_check (ops : list Op) :
  (forall r, In r (stocks (run ops)) -> reserved_quantity r = 0%Z) /\
  (forall now a, is_completed a = false ->
     exists s', complete_audit now a (run ops) = inr (true, mark_completed now a, s')).
Proof.
  pose proof (Inv_run ops) as HI.
  split; [exact (inv_reserved _ HI)|].
  intros now a Hp.
  destruct (complete_audit_pending_effect _ now a HI Hp) as [s' [_ [Heq _]]].
  exists s'; exact Heq.
Qed.

Lemma no_negative_stock_check_witness :
  reserved_quantity sample_stock = 0%Z /\
  exists s', complete_audit 2 (mkStockAudit 3 7 1 100 0 None false None) (run sample_ops) =
    inr (true, mark_completed 2 (mkStockAudit 3 7 1 100 0 None false None), s').
Proof.
  destruct (no_negative_stock_check sample_ops) as [H1 H2].
  split; [apply H1; vm_compute; left; reflexivity|].
  apply H2; reflexivity.
Defined.

(** C5, counterexample.  [StockAudit] does not override [save]: an
    instance loaded before the audit was completed through another instance
    still holds [is_completed=False, completed_at=None], and saving it after
    an edit of its count writes those values back, so the completed row is
    pending again; completing that instance afterwards writes a new
    [completed_at] and a second adjustment.  A completed
    [WorkerProductAudit] whose photo has been cleared is reset to pending by
    [save]. *)
Lemma audit_terminal_counterexample :
  load_audit 0 (run [OpCreateAudit 7 1 100 92 None; OpLoadAudit 0; OpCompleteAudit 0 1])
    = inr (mkStockAudit 0 7 1 100 92 None true (Some 1)) /\
  load_audit 0 (run [OpCreateAudit 7 1 100 92 None; OpLoadAudit 0; OpCompleteAudit 0 1;
                     OpEditHandle 0 50 None; OpSaveHandle 0])
    = inr (mkStockAudit 0 7 1 100 50 None false None) /\
  load_audit 0 (run [OpCreateAudit 7 1 100 92 None; OpLoadAudit 0; OpCompleteAudit 0 1;
                     OpEditHandle 0 50 None; OpSaveHandle 0; OpCompleteHandle 0 3])
    = inr (mkStockAudit 0 7 1 100 50 None true (Some 3)) /\
  Store.save 9 (Store.mkWorkerProductAudit (Some 3) None true (Some 4)) =
  Store.mkWorkerProductAudit (Some 3) None false None.
Proof. vm_compute; repeat split. Qed.

(** C5, as the code has it.  Neither audit is terminal.  On every reachable
    session, an operation leaves a completed [StockAudit] row completed with
    the same [completed_at], except saving a held instance of that audit
    whose [is_completed] is false or whose [completed_at] differs (the save
    writes the instance's values back, possibly pending), and completing a
    held instance of that audit that is still pending (which writes a new
    [completed_at]).  Saving a completed [WorkerProductAudit] while
    [quantity_recorded] or [photo_taken] is null sets [is_completed] to
    false and [completed_at] to null. *)
Theorem audit_terminal :
  (forall ops op aid a,
     load_audit aid (run ops) = inr a -> is_completed a = true ->
     (exists a', load_audit aid (run (ops ++ [op])) = inr a' /\
        is_completed a' = true /\ completed_at a' = completed_at a) \/
     (exists h x, op = OpSaveHandle h /\ nth_error (handles (run_session ops)) h = Some x /\
        audit_id x = aid /\ (is_completed x = false \/ completed_at x <> completed_at a)) \/
     (exists h x now, op = OpCompleteHandle h now /\
        nth_error (handles (run_session ops)) h = Some x /\
        audit_id x = aid /\ is_completed x = false)) /\
  (forall now w, Store.wpa_is_completed w = true ->
     (Store.wpa_quantity_recorded w = None \/ Store.wpa_photo_taken w = None) ->
     Store.wpa_is_completed (Store.save now w) = false /\
     Store.wpa_completed_at (Store.save now w) = None).
Proof.
  split.
  - intros ops op aid a Hl Hp.
    replace (run (ops ++ [op])) with (sess_db (run_op (run_session ops) op))
      by (unfold run, run_session, run_from; rewrite fold_left_app; reflexivity).
    exact (completed_audit_step (run_session ops) op aid a (AInv_run ops) Hl Hp).
  - intros now [q p c t]; unfold Store.save; simpl; intros Hc H; subst c.
    destruct q, p; simpl; try (split; reflexivity); destruct H as [H|H]; discriminate.
Qed.

(** Re-saving the audit of [sample_ops] through the shorthand keeps it
    completed; the cleared photo resets the [WorkerProductAudit]. *)
Lemma audit_terminal_witness :
  ((exists a', load_audit 0 (run (sample_ops ++ [OpSaveAudit 0 50 (Some 2)])) = inr a' /\
      is_completed a' = true /\ completed_at a' = Some 1) \/
   (exists h x, OpSaveAudit 0 50 (Some 2) = OpSaveHandle h /\
      nth_error (handles (run_session sample_ops)) h = Some x /\
      audit_id x = 0 /\ (is_completed x = false \/ completed_at x <> Some 1)) \/
   (exists h x now, OpSaveAudit 0 50 (Some 2) = OpCompleteHandle h now /\
      nth_error (handles (run_session sample_ops)) h = Some x /\
      audit_id x = 0 /\ is_completed x = false)) /\
  Store.wpa_is_completed (Store.save 9 (Store.mkWorkerProductAudit (Some 3) None true (Some 4)))
    = false /\
  Store.wpa_completed_at (Store.save 9 (Store.mkWorkerProductAudit (Some 3) None true (Some 4)))
    = None.
Proof.
  destruct audit_terminal as [H1 H2].
  split.
  - apply (H1 sample_ops (OpSaveAudit 0 50 (Some 2)) 0
             (mkStockAudit 0 7 1 0 100 None true (Some 1)));
      vm_compute; reflexivity.
  - apply H2; [reflexivity|right; reflexivity].
Defined.

(** C10, counterexample: an instance that reaches [save] already marked
    completed but without a completion time keeps [completed_at] null. *)
Lemma worker_audit_save_counterexample :
  Store.wpa_is_completed (Store.save 9 (Store.mkWorkerProductAudit (Some 3) (Some 1) true None))
    = true /\
  Store.wpa_completed_at (Store.save 9 (Store.mkWorkerProductAudit (Some 3) (Some 1) true None))
    = None.
Proof. split; reflexivity. Qed.

(** C10, as the code has it.  After [WorkerProductAudit.save],
    [is_completed] is true exactly when [quantity_recorded] and
    [photo_taken] are both non-null; saving with either null leaves it false,
    and clears [completed_at] when the instance was completed; and [completed_at] is non-null exactly when
    [is_completed] is true after the save whenever that already held before
    it (as for a row created with the defaults and changed through [save]). *)
Theorem worker_audit_save (now : Store.datetime) (w : Store.WorkerProductAudit) :
  (Store.wpa_is_completed (Store.save now w) = true <->
     Store.wpa_quantity_recorded w <> None /\ Store.wpa_photo_taken w <> None) /\
  ((Store.wpa_quantity_recorded w = None \/ Store.wpa_photo_taken w = None) ->
     Store.wpa_is_completed (Store.save now w) = false /\
     (Store.wpa_is_completed w = true -> Store.wpa_completed_at (Store.save now w) = None)) /\
  ((Store.wpa_completed_at w <> None <-> Store.wpa_is_completed w = true) ->
     (Store.wpa_completed_at (Store.save now w) <> None <->
      Store.wpa_is_completed (Store.save now w) = true)).
Proof.
  destruct w as [q p c t]; unfold Store.save; simpl.
  destruct q, p, c; simpl; intuition congruence.
Qed.

Lemma worker_audit_save_witness :
  (Store.wpa_quantity_recorded (Store.mkWorkerProductAudit None (Some 1) true (Some 4)) = None \/
   Store.wpa_photo_taken (Store.mkWorkerProductAudit None (Some 1) true (Some 4)) = None) /\
  Store.wpa_is_completed (Store.save 9 (Store.mkWorkerProductAudit None (Some 1) true (Some 4)))
    = false /\
  (Store.wpa_completed_at (Store.mkWorkerProductAudit (Some 3) (Some 1) false None) <> None <->
   Store.wpa_is_completed (Store.mkWorkerProductAudit (Some 3) (Some 1) false None) = true) /\
  (Store.wpa_completed_at (Store.save 9 (Store.mkWorkerProductAudit (Some 3) (Some 1) false None))
     <> None <->
   Store.wpa_is_completed (Store.save 9 (Store.mkWorkerProductAudit (Some 3) (Some 1) false None))
     = true).
Proof.
  assert (Hpre : Store.wpa_completed_at (Store.mkWorkerProductAudit (Some 3) (Some 1) false None)
                   <> None <->
                 Store.wpa_is_completed (Store.mkWorkerProductAudit (Some 3) (Some 1) false None)
                   = true) by (simpl; split; [intros H; contradiction H; reflexivity|discriminate]).
  split; [left; reflexivity|].
  split; [apply (proj1 (proj1 (proj2 (worker_audit_save 9
      (Store.mkWorkerProductAudit None (Some 1) true (Some 4)))) (or_introl eq_refl)))|].
  split; [exact Hpre|].
  exact (proj2 (proj2 (worker_audit_save 9 _)) Hpre).
Defined.

(** * Further properties of the code

    Properties of the discount manager, [Address.save],
    [generate_unique_slug], the cart merge on login, [Image.save] and
    [WorkerProductAudit.save], read off the source. *)

(** ** List lemmas *)

Lemma filter_map_same {A} (p : A -> bool) (f : A -> A) (l : list A) :
  (forall x, In x l -> f x = x \/ (p x = false /\ p (f x) = false)) ->
  filter p (map f l) = filter p l.
Proof.
  induction l as [|x l IH]; simpl; intros H; [reflexivity|].
  rewrite IH by auto.
  destruct (H x (or_introl eq_refl)) as [->|[E1 E2]]; [reflexivity|].
  rewrite E1, E2; reflexivity.
Qed.

Lemma filter_map_le {A} (p : A -> bool) (f : A -> A) (l : list A) :
  (forall x, In x l -> p (f x) = true -> f x = x) ->
  length (filter p (map f l)) <= length (filter p l).
Proof.
  induction l as [|x l IH]; simpl; intros H; [lia|].
  assert (IH' : length (filter p (map f l)) <= length (filter p l)) by (apply IH; auto).
  destruct (p (f x)) eqn:E.
  - rewrite (H x (or_introl eq_refl) E) in E; rewrite E; simpl; lia.
  - destruct (p x); simpl; lia.
Qed.

Lemma filter_filter_and {A} (p q : A -> bool) (l : list A) :
  filter p (filter q l) = filter (fun x => q x && p x) l.
Proof.
  induction l as [|x l IH]; simpl; [reflexivity|].
  destruct (q x); simpl; [destruct (p x); simpl|]; rewrite IH; reflexivity.
Qed.

Lemma filter_all_false {A} (p : A -> bool) (l : list A) :
  (forall x, In x l -> p x = false) -> filter p l = [].
Proof.
  induction l as [|x l IH]; simpl; intros H; [reflexivity|].
  rewrite H by auto; apply IH; auto.
Qed.

Lemma in_filter_singleton {A} (p : A -> bool) (l : list A) a x :
  filter p l = [a] -> In x l -> p x = true -> x = a.
Proof.
  intros Hf Hx Hp.
  assert (H : In x (filter p l)) by (apply filter_In; auto).
  rewrite Hf in H; destruct H as [->|[]]; reflexivity.
Qed.

Lemma in_filter_singleton_in {A} (p : A -> bool) (l : list A) a :
  filter p l = [a] -> In a l /\ p a = true.
Proof.
  intros Hf; apply (filter_In p a l); rewrite Hf; left; reflexivity.
Qed.

Lemma NoDup_map_injective {A B} (f : A -> B) (l : list A) :
  (forall x y, f x = f y -> x = y) -> NoDup l -> NoDup (map f l).
Proof.
  intros Hf; induction 1 as [|x l Hx Hnd IH]; simpl; constructor; auto.
  intros Hin; apply in_map_iff in Hin as (y & Hy & Hyl).
  apply Hf in Hy; subst; contradiction.
Qed.

(** ** [DiscountManager] and [Discount.is_valid] *)

Module DiscountFacts.

Lemma expired_not_in_range now d :
  Discounts.expired_active now d = true ->
  Nat.leb now (Discounts.end_date d) = false.
Proof.
  unfold Discounts.expired_active; intros H.
  apply andb_true_iff in H as [H _]; apply Nat.ltb_lt in H.
  apply Nat.leb_gt; exact H.
Qed.

(** The update writes only [is_active], to false, on expired active rows; afterwards no active row has ended before [now]; the count returned is the number of rows switched off; validity and [get_active] at [now] are unchanged. *)
Theorem deactivate_expired_effect now ds :
  match Discounts.deactivate_expired now ds with
  | (n, ds') =>
      Forall2 (fun d d' => d' = d \/
                 (Discounts.expired_active now d = true /\ d' = Discounts.set_is_active false d)) ds ds'
      /\ (forall d, In d ds' -> Discounts.expired_active now d = false)
      /\ n = length (filter (fun p => Discounts.is_active (fst p) && negb (Discounts.is_active (snd p)))
                            (combine ds ds'))
      /\ map (Discounts.is_valid now) ds' = map (Discounts.is_valid now) ds
      /\ Discounts.get_active now ds' = Discounts.get_active now ds
  end.
Proof.
  unfold Discounts.deactivate_expired.
  induction ds as [|d ds IH]; simpl.
  - repeat split; auto. intros d [].
  - destruct IH as (HF & HE & HN & HV & HA).
    destruct (Discounts.expired_active now d) eqn:He.
    + pose proof (expired_not_in_range now d He) as Hr.
      assert (Hact : Discounts.is_active d = true)
        by (unfold Discounts.expired_active in He; apply andb_true_iff in He; tauto).
      repeat split.
      * constructor; [right; auto|exact HF].
      * intros x [<-|Hx]; [|auto].
        unfold Discounts.expired_active; simpl; rewrite andb_false_r; reflexivity.
      * simpl; rewrite Hact; simpl; f_equal; exact HN.
      * simpl; f_equal; [|exact HV].
        unfold Discounts.is_valid; simpl; rewrite Hr, Hact.
        rewrite !andb_false_r; reflexivity.
      * simpl; rewrite Hr, !andb_false_r; exact HA.
    + repeat split.
      * constructor; [left; auto|exact HF].
      * intros x [<-|Hx]; auto.
      * simpl; rewrite andb_negb_r; exact HN.
      * simpl; f_equal; exact HV.
      * simpl; rewrite HA; reflexivity.
Qed.

(** A second [deactivate_expired] at the same instant matches no row and changes nothing. *)
Theorem deactivate_expired_idempotent now ds :
  Discounts.deactivate_expired now (snd (Discounts.deactivate_expired now ds))
  = (0, snd (Discounts.deactivate_expired now ds)).
Proof.
  unfold Discounts.deactivate_expired; simpl.
  induction ds as [|d ds IH]; simpl; [reflexivity|].
  injection IH as H1 H2.
  destruct (Discounts.expired_active now d) eqn:He; simpl.
  - assert (He' : Discounts.expired_active now (Discounts.set_is_active false d) = false)
      by (unfold Discounts.expired_active; simpl; apply andb_false_r).
    rewrite He', H1, H2; reflexivity.
  - rewrite He, H1, H2; reflexivity.
Qed.

(** [is_valid] holds exactly when [get_active] keeps the discount and the usage limit, if any, is not reached; a [max_uses] of [0] counts as no limit. *)
Theorem is_valid_iff now d :
  Discounts.is_valid now d = true <->
  Discounts.get_active now [d] = [d]
  /\ (forall m, Discounts.max_uses d = Some m -> m = 0 \/ Discounts.used_count d < m).
Proof.
  unfold Discounts.is_valid, Discounts.get_active; simpl.
  destruct (Discounts.is_active d && Nat.leb (Discounts.start_date d) now
            && Nat.leb now (Discounts.end_date d)) eqn:Hr;
    rewrite andb_assoc, Hr; simpl.
  - destruct (Discounts.max_uses d) as [m|] eqn:Hm.
    + destruct (Nat.eqb m 0) eqn:H0; simpl.
      * apply Nat.eqb_eq in H0; split; [intros _; split; [reflexivity|]|tauto].
        intros m' Hm'; injection Hm' as <-; left; exact H0.
      * apply Nat.eqb_neq in H0.
        destruct (Nat.leb m (Discounts.used_count d)) eqn:Hl.
        -- apply Nat.leb_le in Hl; split; [discriminate|].
           intros [_ H]; destruct (H m eq_refl); lia.
        -- apply Nat.leb_gt in Hl; split; [intros _; split; [reflexivity|]|tauto].
           intros m' Hm'; injection Hm' as <-; right; exact Hl.
    + split; [intros _; split; [reflexivity|]|tauto]. intros m' Hm'; discriminate.
  - split; [discriminate|]. intros [H _]; discriminate.
Qed.

End DiscountFacts.

(** ** [Address.save] *)

Module AddressFacts.
Import Addresses.

Lemma address_type_eqb_refl t : address_type_eqb t t = true.
Proof. destruct t; reflexivity. Qed.

Lemma address_type_eqb_eq t t' : address_type_eqb t t' = true -> t = t'.
Proof. destruct t, t'; simpl; congruence. Qed.

Lemma save_as_map a rows : save a rows = model_save a (map (clear_fun a) rows).
Proof.
  unfold save, clear_fun; destruct (is_default a); simpl; [reflexivity|].
  rewrite map_id; reflexivity.
Qed.

Lemma clear_fun_id a r : address_id (clear_fun a r) = address_id r.
Proof. unfold clear_fun; destruct (_ && _); reflexivity. Qed.

Lemma existsb_map_id a rows :
  existsb (fun r => Nat.eqb (address_id r) (address_id a)) (map (clear_fun a) rows)
  = existsb (fun r => Nat.eqb (address_id r) (address_id a)) rows.
Proof.
  induction rows as [|x rows IH]; simpl; [reflexivity|].
  rewrite clear_fun_id, IH; reflexivity.
Qed.

Lemma map_address_id_clear a rows :
  map address_id (map (clear_fun a) rows) = map address_id rows.
Proof.
  rewrite map_map; apply map_ext; intros; apply clear_fun_id.
Qed.

Lemma existsb_id_false_not_in (l : list Address) k :
  existsb (fun r => Nat.eqb (address_id r) k) l = false -> ~ In k (map address_id l).
Proof.
  induction l as [|x l IH]; simpl; [tauto|].
  intros H; apply orb_false_iff in H as [H1 H2]; apply Nat.eqb_neq in H1.
  intros [H|H]; [congruence|exact (IH H2 H)].
Qed.

Lemma model_save_ids a rows :
  NoDup (map address_id rows) -> NoDup (map address_id (model_save a rows)).
Proof.
  unfold model_save; intros Hnd.
  destruct (existsb _ rows) eqn:He.
  - replace (map address_id (map _ rows)) with (map address_id rows); [exact Hnd|].
    rewrite map_map; apply map_ext; intros r.
    destruct (Nat.eqb (address_id r) (address_id a)) eqn:E; [|reflexivity].
    apply Nat.eqb_eq; exact E.
  - rewrite map_app; apply NoDup_snoc; [exact Hnd|].
    apply existsb_id_false_not_in; exact He.
Qed.

Lemma save_ids a rows :
  NoDup (map address_id rows) -> NoDup (map address_id (save a rows)).
Proof.
  intros Hnd; rewrite save_as_map; apply model_save_ids.
  rewrite map_address_id_clear; exact Hnd.
Qed.

Lemma filter_key_single (l : list Address) k :
  NoDup (map address_id l) ->
  existsb (fun r => Nat.eqb (address_id r) k) l = true ->
  exists r, filter (fun r => Nat.eqb (address_id r) k) l = [r].
Proof.
  induction l as [|x l IH]; simpl; [discriminate|].
  intros Hnd He; inversion Hnd as [|? ? Hx Hnd']; subst.
  destruct (Nat.eqb (address_id x) k) eqn:E.
  - exists x; f_equal.
    apply Nat.eqb_eq in E; subst k.
    destruct (filter _ l) as [|y l'] eqn:Hf; [reflexivity|].
    exfalso; apply Hx.
    assert (Hy : In y (filter (fun r => Nat.eqb (address_id r) (address_id x)) l))
      by (rewrite Hf; left; reflexivity).
    apply filter_In in Hy as [Hy Hk]; apply Nat.eqb_eq in Hk.
    rewrite <- Hk; apply in_map; exact Hy.
  - simpl in He; apply IH; assumption.
Qed.

Lemma defaults_after_save_default a rows :
  is_default a = true ->
  filter (fun r => is_default r && Nat.eqb (user r) (user a)
                   && address_type_eqb (address_type r) (address_type a))
         (map (clear_fun a) rows)
  = filter (fun r => is_default r && Nat.eqb (user r) (user a)
                   && address_type_eqb (address_type r) (address_type a)
                   && Nat.eqb (address_id r) (address_id a)) rows.
Proof.
  intros Hd; induction rows as [|x rows IH]; simpl; [reflexivity|].
  rewrite IH; unfold clear_fun, same_group_other; rewrite Hd; simpl.
  destruct (Nat.eqb (user x) (user a)) eqn:Eu;
  destruct (address_type_eqb (address_type x) (address_type a)) eqn:Et;
  destruct (Nat.eqb (address_id x) (address_id a)) eqn:Ei;
  simpl; rewrite ?Eu, ?Et, ?Ei, ?andb_true_r, ?andb_false_r; reflexivity.
Qed.

(** Saving a default address leaves it the only default address of its user and type. *)
Lemma save_default_only a rows :
  NoDup (map address_id rows) -> is_default a = true ->
  defaults_of (save a rows) (user a) (address_type a) = [a].
Proof.
  intros Hnd Hd; unfold defaults_of; rewrite save_as_map; unfold model_save.
  rewrite existsb_map_id.
  destruct (existsb _ rows) eqn:He.
  - destruct (filter_key_single rows (address_id a) Hnd He) as [r Hr].
    rewrite map_map.
    transitivity (map (fun _ => a) (filter (fun r => Nat.eqb (address_id r) (address_id a)) rows));
      [|rewrite Hr; reflexivity].
    clear Hr He Hnd; induction rows as [|x rows IH]; simpl; [reflexivity|].
    rewrite clear_fun_id.
    destruct (Nat.eqb (address_id x) (address_id a)) eqn:Ei; simpl.
    + rewrite Hd, Nat.eqb_refl, address_type_eqb_refl; simpl; f_equal; exact IH.
    + rewrite <- IH.
      unfold clear_fun, same_group_other; rewrite Hd, Ei; simpl.
      destruct (Nat.eqb (user x) (user a)) eqn:Eu;
      destruct (address_type_eqb (address_type x) (address_type a)) eqn:Et;
      simpl; rewrite ?Eu, ?Et, ?andb_false_r; reflexivity.
  - rewrite filter_app, defaults_after_save_default by exact Hd.
    simpl; rewrite Hd, Nat.eqb_refl, address_type_eqb_refl; simpl.
    replace (filter _ rows) with (@nil Address); [reflexivity|].
    clear Hnd; induction rows as [|x rows IH]; simpl; [reflexivity|].
    simpl in He; apply orb_false_iff in He as [E1 E2].
    rewrite E1, andb_false_r; exact (IH E2).
Qed.

Lemma save_defaults_le a rows u t :
  ~ (is_default a = true /\ user a = u /\ address_type a = t) ->
  length (defaults_of (save a rows) u t) <= length (defaults_of rows u t).
Proof.
  intros Hn; unfold defaults_of; rewrite save_as_map; unfold model_save.
  set (P := fun r => is_default r && Nat.eqb (user r) u && address_type_eqb (address_type r) t).
  assert (Pa : P a = false).
  { unfold P; destruct (is_default a) eqn:E1, (Nat.eqb (user a) u) eqn:E2,
      (address_type_eqb (address_type a) t) eqn:E3; try reflexivity.
    exfalso; apply Hn; apply Nat.eqb_eq in E2; apply address_type_eqb_eq in E3; auto. }
  assert (Hg : forall x, P (clear_fun a x) = true -> clear_fun a x = x).
  { intros x; unfold clear_fun; destruct (_ && _); [|reflexivity].
    unfold P; simpl; discriminate. }
  destruct (existsb _ _).
  - rewrite map_map; apply filter_map_le; intros x _.
    destruct (Nat.eqb (address_id (clear_fun a x)) (address_id a)).
    + rewrite Pa; discriminate.
    + apply Hg.
  - rewrite filter_app; simpl; fold (P a); rewrite Pa, app_nil_r.
    apply filter_map_le; intros x _; apply Hg.
Qed.

Lemma run_saves_app l a : run_saves (l ++ [a]) = save a (run_saves l).
Proof. unfold run_saves; rewrite fold_left_app; reflexivity. Qed.

Lemma run_saves_inv l :
  NoDup (map address_id (run_saves l))
  /\ forall u t, length (defaults_of (run_saves l) u t) <= 1.
Proof.
  induction l as [|a l IH] using rev_ind.
  - split; [constructor|]. intros; simpl; lia.
  - rewrite run_saves_app; destruct IH as [Hnd Hle]; split.
    + apply save_ids; exact Hnd.
    + intros u t.
      destruct (is_default a) eqn:Hd.
      * destruct (Nat.eqb (user a) u) eqn:Eu;
        [destruct (address_type_eqb (address_type a) t) eqn:Et|].
        -- apply Nat.eqb_eq in Eu; apply address_type_eqb_eq in Et; subst.
           rewrite save_default_only by assumption; simpl; lia.
        -- etransitivity; [apply save_defaults_le|apply Hle].
           intros (_ & _ & <-); rewrite address_type_eqb_refl in Et; discriminate.
        -- etransitivity; [apply save_defaults_le|apply Hle].
           intros (_ & <- & _); rewrite Nat.eqb_refl in Eu; discriminate.
      * etransitivity; [apply save_defaults_le|apply Hle].
        intros (H & _); congruence.
Qed.

(** after any sequence of [Address.save] calls, each user has at most one default address of each type. *)
Theorem address_single_default l u t :
  length (Addresses.defaults_of (Addresses.run_saves l) u t) <= 1.
Proof. apply run_saves_inv. Qed.

(** saving an address with [is_default] set makes it the one default address of its user and type. *)
Theorem address_save_default_wins l a :
  Addresses.is_default a = true ->
  Addresses.defaults_of (Addresses.save a (Addresses.run_saves l))
    (Addresses.user a) (Addresses.address_type a) = [a].
Proof.
  intros Hd; apply save_default_only; [apply run_saves_inv|exact Hd].
Qed.

Lemma address_save_default_wins_witness :
  defaults_of (save sample_address (run_saves sample_saves)) 5 SHIPPING = [sample_address].
Proof.
  apply (address_save_default_wins sample_saves sample_address); reflexivity.
Defined.

(** a save changes no row of another user or address type, except the row that has the saved instance's primary key. *)
Theorem address_save_frame a rows :
  filter (fun r => negb (Nat.eqb (user r) (user a)
                         && address_type_eqb (address_type r) (address_type a))
                   && negb (Nat.eqb (address_id r) (address_id a)))
         (save a rows)
  = filter (fun r => negb (Nat.eqb (user r) (user a)
                         && address_type_eqb (address_type r) (address_type a))
                   && negb (Nat.eqb (address_id r) (address_id a))) rows.
Proof.
  rewrite save_as_map; unfold model_save.
  set (k := fun r => negb (Nat.eqb (user r) (user a)
                           && address_type_eqb (address_type r) (address_type a))
                     && negb (Nat.eqb (address_id r) (address_id a))).
  assert (Ka : k a = false) by (unfold k; rewrite (Nat.eqb_refl (address_id a)); simpl; apply andb_false_r).
  assert (Hg : filter k (map (clear_fun a) rows) = filter k rows).
  { apply filter_map_same; intros x _; unfold clear_fun.
    destruct (is_default a && same_group_other a x) eqn:E; [right|left; reflexivity].
    apply andb_true_iff in E as [_ E]; unfold same_group_other in E.
    apply andb_true_iff in E as [E1 E2]; unfold k; simpl; rewrite E1; split; reflexivity. }
  destruct (existsb _ _).
  - rewrite <- Hg; apply filter_map_same; intros x _.
    destruct (Nat.eqb (address_id x) (address_id a)) eqn:E; [right|left; reflexivity].
    split; [unfold k; rewrite E; apply andb_false_r|exact Ka].
  - rewrite filter_app; simpl; fold (k a); rewrite Ka, app_nil_r; exact Hg.
Qed.

End AddressFacts.

(** ** [generate_unique_slug] *)

Module SlugFacts.
Import Slug.

Lemma py_str_inj x y : py_str x = py_str y -> x = y.
Proof. intros H; exact (stdpp.pretty.pretty_nat_inj x y H). Qed.

Lemma string_append_cancel_l s t u :
  String.append s t = String.append s u -> t = u.
Proof.
  induction s as [|c s IH]; simpl; [auto|].
  intros H; injection H as H; exact (IH H).
Qed.

Lemma string_append_self s t : s = String.append s t -> t = String.EmptyString.
Proof.
  induction s as [|c s IH]; simpl; [auto|].
  intros H; injection H as H; exact (IH H).
Qed.

Lemma slug_candidate_inj base i j :
  slug_candidate base i = slug_candidate base j -> i = j.
Proof.
  destruct i as [|i], j as [|j]; simpl; unfold numbered; intros H; try reflexivity.
  - apply string_append_self in H; discriminate.
  - symmetry in H; apply string_append_self in H; discriminate.
  - apply string_append_cancel_l in H; simpl in H; injection H as H.
    exact (py_str_inj _ _ H).
Qed.

Lemma slug_loop_some rows pk base f : forall n s,
  slug_loop f rows pk base (slug_candidate base n) (S n) = Some s ->
  exists m, n <= m /\ s = slug_candidate base m
    /\ slug_exists rows pk (slug_candidate base m) = false
    /\ forall j, n <= j < m -> slug_exists rows pk (slug_candidate base j) = true.
Proof.

  induction f as [|f IH]; simpl; intros n s H; [discriminate|].
  destruct (slug_exists rows pk (slug_candidate base n)) eqn:E.
  - destruct (IH (S n) s H) as (m & Hm & -> & Hf & Hj).
    exists m; repeat split; [lia|exact Hf|].
    intros j Hj'; destruct (Nat.eq_dec j n) as [->|Hne]; [exact E|apply Hj; lia].
  - injection H as <-; exists n; repeat split; auto; intros; lia.
Qed.

Lemma slug_loop_none rows pk base f : forall n,
  slug_loop f rows pk base (slug_candidate base n) (S n) = None ->
  forall j, n <= j < n + f -> slug_exists rows pk (slug_candidate base j) = true.
Proof.
  induction f as [|f IH]; simpl; intros n H j Hj; [lia|].
  destruct (slug_exists rows pk (slug_candidate base n)) eqn:E; [|discriminate].
  destruct (Nat.eq_dec j n) as [->|Hne]; [exact E|].
  apply (IH (S n) H); lia.
Qed.

Lemma slug_exists_in rows pk s :
  slug_exists rows pk s = true -> In s (map snd rows).
Proof.
  unfold slug_exists; intros H; apply existsb_exists in H as (r & Hr & Hs).
  apply andb_true_iff in Hs as [Hs _]; apply String.eqb_eq in Hs.
  rewrite <- Hs; apply in_map; exact Hr.
Qed.

Lemma not_all_candidates_taken rows pk base :
  ~ (forall j, j < S (length rows) -> slug_exists rows pk (slug_candidate base j) = true).
Proof.
  intros H.
  assert (Hnd : NoDup (map (slug_candidate base) (seq 0 (S (length rows))))).
  { apply NoDup_map_injective; [intros i j; apply slug_candidate_inj|apply seq_NoDup]. }
  assert (Hin : incl (map (slug_candidate base) (seq 0 (S (length rows)))) (map snd rows)).
  { intros s Hs; apply in_map_iff in Hs as (j & <- & Hj).
    apply in_seq in Hj; apply (slug_exists_in rows pk); apply H; lia. }
  pose proof (NoDup_incl_length Hnd Hin) as Hl.
  rewrite !length_map, length_seq in Hl; lia.
Qed.

(** when the helper generates a slug (a new instance, or one with an empty slug), it returns one: the first of [base], [base-1], [base-2], ... that no other row of the table has. *)
Theorem generate_unique_slug_first_free slugify inst rows :
  Slug.si_adding inst = true \/ Slug.si_slug inst = String.EmptyString ->
  exists m,
    Slug.generate_unique_slug slugify inst rows
      = Some (Slug.slug_candidate (Slug.base_slug slugify inst) m)
    /\ Slug.slug_exists rows (Slug.si_pk inst) (Slug.slug_candidate (Slug.base_slug slugify inst) m) = false
    /\ forall j, j < m ->
         Slug.slug_exists rows (Slug.si_pk inst) (Slug.slug_candidate (Slug.base_slug slugify inst) j) = true.
Proof.
  intros Hg; unfold generate_unique_slug.
  replace (negb (String.eqb (si_slug inst) String.EmptyString) && negb (si_adding inst)) with false
    by (destruct Hg as [-> | ->]; [symmetry; apply andb_false_r|reflexivity]).
  set (base := base_slug slugify inst).
  change base with (slug_candidate base 0) at 2.
  destruct (slug_loop (S (length rows)) rows (si_pk inst) base (slug_candidate base 0) 1) as [s|] eqn:Hl.
  - destruct (slug_loop_some rows (si_pk inst) base _ 0 s Hl) as (m & _ & -> & Hf & Hj).
    exists m; repeat split; auto. intros j Hj'; apply Hj; lia.
  - exfalso; apply (not_all_candidates_taken rows (si_pk inst) base).
    intros j Hj; apply (slug_loop_none rows (si_pk inst) base _ 0 Hl); lia.
Qed.

Lemma generate_unique_slug_first_free_witness :
  (Slug.si_adding Slug.sample_instance = true
   \/ Slug.si_slug Slug.sample_instance = String.EmptyString) /\
  exists m,
    Slug.generate_unique_slug (fun s => s) Slug.sample_instance Slug.sample_rows
    = Some (Slug.slug_candidate (Slug.base_slug (fun s => s) Slug.sample_instance) m)
    /\ Slug.slug_exists Slug.sample_rows (Slug.si_pk Slug.sample_instance)
         (Slug.slug_candidate (Slug.base_slug (fun s => s) Slug.sample_instance) m) = false
    /\ forall j, j < m ->
         Slug.slug_exists Slug.sample_rows (Slug.si_pk Slug.sample_instance)
           (Slug.slug_candidate (Slug.base_slug (fun s => s) Slug.sample_instance) j) = true.
Proof.
  split; [left; reflexivity|].
  apply (generate_unique_slug_first_free (fun s => s) Slug.sample_instance Slug.sample_rows).
  left; reflexivity.
Defined.

End SlugFacts.

(** ** [merge_anonymous_cart_with_user_cart] *)

Module CartFacts.
Import Carts.

Lemma bump_quantity_id pk n i : item_id (bump_quantity pk n i) = item_id i.
Proof. unfold bump_quantity; destruct (Nat.eqb _ _); reflexivity. Qed.

Lemma bump_quantity_matches pk n c v i :
  item_matches c v (bump_quantity pk n i) = item_matches c v i.
Proof. unfold bump_quantity; destruct (Nat.eqb _ _); reflexivity. Qed.

Lemma bump_quantity_cart pk n i : item_cart (bump_quantity pk n i) = item_cart i.
Proof. unfold bump_quantity; destruct (Nat.eqb _ _); reflexivity. Qed.

Lemma sum_bump_quantity (p : CartItem -> bool) ex n l :
  (forall i, p (bump_quantity (item_id ex) n i) = p i) ->
  NoDup (map item_id l) -> In ex l ->
  list_sum (map quantity (filter p (map (bump_quantity (item_id ex) n) l)))
  = list_sum (map quantity (filter p l)) + (if p ex then n else 0).
Proof.
  intros Hp; induction l as [|x l IH]; simpl; [tauto|].
  intros Hnd Hin; inversion Hnd as [|? ? Hx Hnd']; subst.
  rewrite Hp.
  destruct (Nat.eqb (item_id x) (item_id ex)) eqn:E.
  - apply Nat.eqb_eq in E.
    assert (Hxe : x = ex).
    { destruct Hin as [<-|Hin]; [reflexivity|].
      exfalso; apply Hx; rewrite E; apply in_map; exact Hin. }
    subst x.
    assert (Hl : map (bump_quantity (item_id ex) n) l = l).
    { rewrite <- (map_id l) at 2; apply map_ext_in; intros y Hy.
      unfold bump_quantity; destruct (Nat.eqb (item_id y) (item_id ex)) eqn:Ey; [|reflexivity].
      exfalso; apply Hx; apply Nat.eqb_eq in Ey; rewrite <- Ey; apply in_map; exact Hy. }
    rewrite Hl; unfold bump_quantity at 1; rewrite Nat.eqb_refl.
    destruct (p ex); simpl; lia.
  - destruct Hin as [<-|Hin]; [rewrite Nat.eqb_refl in E; discriminate|].
    unfold bump_quantity at 1; rewrite E.
    destruct (p x); simpl; rewrite IH by assumption; lia.
Qed.

Lemma merge_items_ok c its : forall db,
  loop_inv c db ->
  exists db', merge_items c its db = (None, db')
    /\ loop_inv c db'
    /\ carts db' = carts db
    /\ (forall w, cart_quantity db' c w
                  = cart_quantity db c w
                    + list_sum (map quantity (filter (fun i => Nat.eqb (product_variant i) w) its)))
    /\ (forall c', c' <> c ->
          filter (fun i => Nat.eqb (item_cart i) c') (items db')
          = filter (fun i => Nat.eqb (item_cart i) c') (items db)).
Proof.
  induction its as [|it its IH]; intros db HI.
  - exists db; split; [reflexivity|]; split; [exact HI|]; split; [reflexivity|].
    split; [intros; simpl; lia|reflexivity].
  - destruct HI as (Hnd & Hlt & Hle).
    simpl merge_items; unfold get_or_create_item.
    destruct (filter (item_matches c (product_variant it)) (items db)) as [|ex [|y l]] eqn:Hf.
    + (* created *)
      set (nw := mkCartItem (next_uuid db) c (product_variant it) (quantity it)).
      set (db1 := mkCartDB (carts db) (items db ++ [nw]) (S (next_uuid db))).
      assert (HI1 : loop_inv c db1).
      { repeat split; simpl.
        - rewrite map_app; apply NoDup_snoc; [exact Hnd|].
          intros Hin; apply in_map_iff in Hin as (i & Hi & Hin).
          specialize (Hlt i Hin); simpl in Hi; lia.
        - intros i Hi; apply in_app_or in Hi as [Hi|[<-|[]]]; [specialize (Hlt i Hi); lia|simpl; lia].
        - intros w; rewrite filter_app; simpl.
          unfold item_matches at 2; simpl; rewrite Nat.eqb_refl; simpl.
          destruct (Nat.eqb (product_variant it) w) eqn:Ew.
          + apply Nat.eqb_eq in Ew; subst w; rewrite Hf; simpl; lia.
          + rewrite app_nil_r; apply Hle. }
      destruct (IH db1 HI1) as (db' & Hm & HI' & Hc & Hq & Hfr).
      exists db'; repeat split; try apply HI'; auto.
      * intros w; rewrite Hq; unfold cart_quantity; simpl.
        rewrite filter_app, map_app, list_sum_app; simpl.
        unfold item_matches at 2; simpl; rewrite Nat.eqb_refl; simpl.
        destruct (Nat.eqb (product_variant it) w); simpl; lia.
      * intros c' Hc'; rewrite Hfr by exact Hc'; simpl.
        rewrite filter_app; simpl.
        replace (Nat.eqb c c') with false by (symmetry; apply Nat.eqb_neq; auto).
        apply app_nil_r.
    + (* found *)
      assert (Hex : In ex (items db) /\ item_matches c (product_variant it) ex = true).
      { apply filter_In; rewrite Hf; left; reflexivity. }
      destruct Hex as [Hex Hmx].
      set (db2 := add_quantity (item_id ex) (quantity it) db).
      assert (HI2 : loop_inv c db2).
      { unfold db2, add_quantity, set_items; repeat split; simpl.
        - rewrite map_map; erewrite map_ext; [exact Hnd|]; intros; apply bump_quantity_id.
        - intros i Hi; apply in_map_iff in Hi as (j & <- & Hj).
          rewrite bump_quantity_id; apply Hlt; exact Hj.
        - intros w; rewrite filter_map_keep by (intros; apply bump_quantity_matches).
          rewrite length_map; apply Hle. }
      destruct (IH db2 HI2) as (db' & Hm & HI' & Hc & Hq & Hfr).
      exists db'; repeat split; try apply HI'; auto.
      * intros w; rewrite Hq; unfold cart_quantity, db2, add_quantity, set_items; simpl.
        rewrite sum_bump_quantity by (auto; intros; apply bump_quantity_matches).
        unfold item_matches in Hmx |- *; apply andb_true_iff in Hmx as [Hc1 Hv1].
        rewrite Hc1; simpl.
        apply Nat.eqb_eq in Hv1; rewrite Hv1.
        destruct (Nat.eqb (product_variant it) w); simpl; lia.
      * intros c' Hc'; rewrite Hfr by exact Hc'; unfold db2, add_quantity, set_items; simpl.
        apply filter_map_same; intros x Hx.
        destruct (Nat.eqb (item_id x) (item_id ex)) eqn:E.
        -- right; apply Nat.eqb_eq in E.
           assert (x = ex) as -> by exact (NoDup_map_eq item_id _ x ex Hnd Hx Hex E).
           rewrite bump_quantity_cart.
           unfold item_matches in Hmx; apply andb_true_iff in Hmx as [Hc1 _].
           apply Nat.eqb_eq in Hc1; rewrite Hc1.
           split; apply Nat.eqb_neq; auto.
        -- left; unfold bump_quantity; rewrite E; reflexivity.
    + exfalso; specialize (Hle (product_variant it)); rewrite Hf in Hle; simpl in Hle; lia.
Qed.

Lemma cart_ids_differ db k u ac uc :
  NoDup (map cart_id (carts db)) ->
  filter (is_anonymous_cart_of k) (carts db) = [ac] ->
  filter (is_cart_of u) (carts db) = [uc] ->
  cart_id uc <> cart_id ac.
Proof.
  intros Hnd Ha Hu He.
  destruct (in_filter_singleton_in _ _ _ Ha) as [Hac Hpa].
  destruct (in_filter_singleton_in _ _ _ Hu) as [Huc Hpu].
  assert (uc = ac) as <- by exact (NoDup_map_eq cart_id _ uc ac Hnd Huc Hac He).
  unfold is_anonymous_cart_of, is_cart_of in *.
  destruct (cart_user uc); [rewrite andb_false_r in Hpa|]; discriminate.
Qed.

(** when the user already has a cart, merging on login moves the anonymous cart's quantities into it variant by variant, then deletes the anonymous cart and its items; items of other carts are unchanged, each variant still has at most one item in the user's cart, and the user ends with one cart and the session with no anonymous cart. *)
Theorem merge_into_user_cart k u ac uc db :
  NoDup (map Carts.cart_id (Carts.carts db)) ->
  NoDup (map Carts.item_id (Carts.items db)) ->
  (forall i, In i (Carts.items db) -> Carts.item_id i < Carts.next_uuid db) ->
  (forall v, length (filter (Carts.item_matches (Carts.cart_id uc) v) (Carts.items db)) <= 1) ->
  k <> String.EmptyString ->
  filter (Carts.is_anonymous_cart_of k) (Carts.carts db) = [ac] ->
  filter (Carts.is_cart_of u) (Carts.carts db) = [uc] ->
  let db' := Carts.merge_anonymous_cart_with_user_cart (Some k) u db in
  (forall v, Carts.cart_quantity db' (Carts.cart_id uc) v
             = Carts.cart_quantity db (Carts.cart_id uc) v + Carts.cart_quantity db (Carts.cart_id ac) v)
  /\ (forall v, length (filter (Carts.item_matches (Carts.cart_id uc) v) (Carts.items db')) <= 1)
  /\ filter (fun i => Nat.eqb (Carts.item_cart i) (Carts.cart_id ac)) (Carts.items db') = []
  /\ (forall c, c <> Carts.cart_id ac -> c <> Carts.cart_id uc ->
        filter (fun i => Nat.eqb (Carts.item_cart i) c) (Carts.items db')
        = filter (fun i => Nat.eqb (Carts.item_cart i) c) (Carts.items db))
  /\ filter (Carts.is_cart_of u) (Carts.carts db') = [uc]
  /\ filter (Carts.is_anonymous_cart_of k) (Carts.carts db') = [].
Proof.
  intros Hcnd Hind Hlt Hle Hk Ha Hu db'.
  pose proof (cart_ids_differ db k u ac uc Hcnd Ha Hu) as Hne.
  destruct (merge_items_ok (cart_id uc)
              (filter (fun i => Nat.eqb (item_cart i) (cart_id ac)) (items db)) db
              (conj Hind (conj Hlt Hle))) as (db1 & Hm & (_ & _ & Hle1) & Hc & Hq & Hfr).
  assert (Hdb : db' = delete_cart (cart_id ac) db1).
  { unfold db', merge_anonymous_cart_with_user_cart.
    replace (String.eqb k String.EmptyString) with false by (symmetry; apply String.eqb_neq; exact Hk).
    unfold get_cart; rewrite Ha, Hu, Hm; reflexivity. }
  rewrite Hdb; clear Hdb db'.
  assert (Hdel : forall p : CartItem -> bool,
             (forall i, p i = true -> item_cart i <> cart_id ac) ->
             filter p (items (delete_cart (cart_id ac) db1)) = filter p (items db1)).
  { intros p Hp; simpl; rewrite filter_filter_and; apply filter_ext; intros i.
    destruct (p i) eqn:E; [|apply andb_false_r].
    rewrite andb_true_r; apply negb_true_iff, Nat.eqb_neq, Hp, E. }
  assert (Hmuc : forall v i, item_matches (cart_id uc) v i = true -> item_cart i <> cart_id ac).
  { intros v i Hi; unfold item_matches in Hi; apply andb_true_iff in Hi as [Hi _].
    apply Nat.eqb_eq in Hi; rewrite Hi; exact Hne. }
  repeat split.
  - intros v; unfold cart_quantity at 1; rewrite Hdel by apply Hmuc.
    fold (cart_quantity db1 (cart_id uc) v); rewrite Hq; f_equal.
    unfold cart_quantity; rewrite filter_filter_and; reflexivity.
  - intros v; rewrite Hdel by apply Hmuc; apply Hle1.
  - simpl; rewrite filter_filter_and; apply filter_all_false; intros i _.
    destruct (Nat.eqb (item_cart i) (cart_id ac)); reflexivity.
  - intros c Hca Hcu; rewrite Hdel.
    + apply Hfr; exact Hcu.
    + intros i Hi; apply Nat.eqb_eq in Hi; rewrite Hi; exact Hca.
  - simpl; rewrite filter_filter_and, Hc, <- Hu; apply filter_ext_in; intros x Hx.
    destruct (is_cart_of u x) eqn:E; [|apply andb_false_r].
    rewrite (in_filter_singleton _ _ _ _ Hu Hx E), andb_true_r.
    apply negb_true_iff, Nat.eqb_neq; exact Hne.
  - simpl; rewrite filter_filter_and, Hc; apply filter_all_false; intros x Hx.
    destruct (is_anonymous_cart_of k x) eqn:E; [|apply andb_false_r].
    rewrite (in_filter_singleton _ _ _ _ Ha Hx E), Nat.eqb_refl; reflexivity.
Qed.

Lemma merge_into_user_cart_witness :
  let db' := Carts.merge_anonymous_cart_with_user_cart (Some sample_session) 9 sample_cart_db in
  (forall v, Carts.cart_quantity db' (Carts.cart_id sample_user_cart) v
             = Carts.cart_quantity sample_cart_db (Carts.cart_id sample_user_cart) v
               + Carts.cart_quantity sample_cart_db (Carts.cart_id sample_anonymous_cart) v)
  /\ (forall v, length (filter (Carts.item_matches (Carts.cart_id sample_user_cart) v) (Carts.items db')) <= 1)
  /\ filter (fun i => Nat.eqb (Carts.item_cart i) (Carts.cart_id sample_anonymous_cart)) (Carts.items db') = []
  /\ (forall c, c <> Carts.cart_id sample_anonymous_cart -> c <> Carts.cart_id sample_user_cart ->
        filter (fun i => Nat.eqb (Carts.item_cart i) c) (Carts.items db')
        = filter (fun i => Nat.eqb (Carts.item_cart i) c) (Carts.items sample_cart_db))
  /\ filter (Carts.is_cart_of 9) (Carts.carts db') = [sample_user_cart]
  /\ filter (Carts.is_anonymous_cart_of sample_session) (Carts.carts db') = [].
Proof.
  apply (merge_into_user_cart sample_session 9 sample_anonymous_cart sample_user_cart sample_cart_db).
  - repeat constructor; simpl; intuition congruence.
  - repeat constructor; simpl; intuition congruence.
  - intros i Hi; simpl in Hi; intuition (subst; simpl; lia).
  - intros v; simpl; destruct v as [|[|[|[|[|[|[|[|v]]]]]]]]; simpl; lia.
  - discriminate.
  - reflexivity.
  - reflexivity.
Defined.

Lemma assign_cart_user_carts u ac l :
  NoDup (map cart_id l) -> In ac l -> (forall x, In x l -> is_cart_of u x = false) ->
  filter (is_cart_of u)
    (map (fun x => if Nat.eqb (cart_id x) (cart_id ac) then mkCart (cart_id x) (Some u) None else x) l)
  = [mkCart (cart_id ac) (Some u) None].
Proof.
  induction l as [|x l IH]; simpl; [tauto|].
  intros Hnd Hin Hno; inversion Hnd as [|? ? Hx Hnd']; subst.
  destruct (Nat.eqb (cart_id x) (cart_id ac)) eqn:E.
  - apply Nat.eqb_eq in E; rewrite E; unfold is_cart_of at 1; simpl; rewrite Nat.eqb_refl.
    f_equal; apply filter_all_false; intros y Hy.
    apply in_map_iff in Hy as (z & <- & Hz).
    destruct (Nat.eqb (cart_id z) (cart_id ac)) eqn:Ez.
    + exfalso; apply Hx; apply Nat.eqb_eq in Ez; rewrite E, <- Ez; apply in_map; exact Hz.
    + apply Hno; right; exact Hz.
  - rewrite Hno by (left; reflexivity); apply IH; auto.
    destruct Hin as [<-|Hin]; [rewrite Nat.eqb_refl in E; discriminate|exact Hin].
Qed.

(** when the user has no cart, merging on login gives the anonymous cart to the user and clears its session key; no item changes, and the user ends with exactly that cart and the session with no anonymous cart. *)
Theorem merge_adopts_anonymous_cart k u ac db :
  NoDup (map Carts.cart_id (Carts.carts db)) ->
  k <> String.EmptyString ->
  filter (Carts.is_anonymous_cart_of k) (Carts.carts db) = [ac] ->
  filter (Carts.is_cart_of u) (Carts.carts db) = [] ->
  let db' := Carts.merge_anonymous_cart_with_user_cart (Some k) u db in
  Carts.items db' = Carts.items db
  /\ filter (Carts.is_cart_of u) (Carts.carts db') = [Carts.mkCart (Carts.cart_id ac) (Some u) None]
  /\ filter (Carts.is_anonymous_cart_of k) (Carts.carts db') = [].
Proof.
  intros Hnd Hk Ha Hu db'.
  assert (Hdb : db' = assign_cart (cart_id ac) u db).
  { unfold db', merge_anonymous_cart_with_user_cart.
    replace (String.eqb k String.EmptyString) with false by (symmetry; apply String.eqb_neq; exact Hk).
    unfold get_cart; rewrite Ha, Hu; reflexivity. }
  rewrite Hdb; clear Hdb db'.
  destruct (in_filter_singleton_in _ _ _ Ha) as [Hac _].
  split; [reflexivity|]; split; simpl.
  - apply assign_cart_user_carts; auto.
    intros x Hx; destruct (is_cart_of u x) eqn:E; [|reflexivity].
    assert (H : In x (filter (is_cart_of u) (carts db))) by (apply filter_In; auto).
    rewrite Hu in H; destruct H.
  - apply filter_all_false; intros y Hy; apply in_map_iff in Hy as (x & <- & Hx).
    destruct (Nat.eqb (cart_id x) (cart_id ac)) eqn:E.
    + unfold is_anonymous_cart_of; reflexivity.
    + destruct (is_anonymous_cart_of k x) eqn:Ek; [|reflexivity].
      rewrite (in_filter_singleton _ _ _ _ Ha Hx Ek), Nat.eqb_refl in E; discriminate.
Qed.

Lemma merge_adopts_anonymous_cart_witness :
  let db' := Carts.merge_anonymous_cart_with_user_cart (Some sample_session) 9 sample_adopt_db in
  Carts.items db' = Carts.items sample_adopt_db
  /\ filter (Carts.is_cart_of 9) (Carts.carts db') = [Carts.mkCart (Carts.cart_id sample_anonymous_cart) (Some 9) None]
  /\ filter (Carts.is_anonymous_cart_of sample_session) (Carts.carts db') = [].
Proof.
  apply (merge_adopts_anonymous_cart sample_session 9 sample_anonymous_cart sample_adopt_db).
  - repeat constructor; simpl; intuition congruence.
  - discriminate.
  - reflexivity.
  - reflexivity.
Defined.

End CartFacts.

(** ** [Image.save] and [Product.main_image] *)

Module ImageFacts.
Import Images.

Lemma linked_set_images l db p i : linked (set_images l db) p i = linked db p i.
Proof. reflexivity. Qed.

Lemma linked_set_main db p b i : linked db p (set_main b i) = linked db p i.
Proof. reflexivity. Qed.

Lemma fold_unset_other_main pk ps : forall db,
  fold_left (unset_other_main pk) ps db
  = set_images (map (clear_linked db pk ps) (images db)) db.
Proof.
  induction ps as [|p ps IH]; intros db; simpl.
  - unfold clear_linked; simpl; rewrite map_id; destruct db; reflexivity.
  - rewrite IH; unfold unset_other_main, set_images; simpl; f_equal.
    rewrite map_map; apply map_ext; intros i.
    unfold clear_linked; simpl.
    destruct (linked db p i) eqn:Ep, (Nat.eqb (image_id i) pk) eqn:Ek, (is_main i) eqn:Em;
      simpl; rewrite ?Ep, ?Ek, ?Em, ?orb_true_r, ?andb_false_r; simpl;
      try reflexivity;
      destruct (existsb _ ps); reflexivity.
Qed.

Lemma model_save_links self db : product_images (model_save self db) = product_images db.
Proof. unfold model_save; destruct (existsb _ _); reflexivity. Qed.

Lemma model_save_self_in self db : In self (images (model_save self db)).
Proof.
  unfold model_save; destruct (existsb _ _) eqn:E; simpl; [|left; reflexivity].
  apply existsb_exists in E as (y & Hy & Ey).
  apply in_map_iff; exists y; rewrite Ey; auto.
Qed.

Lemma model_save_pk self db x :
  In x (images (model_save self db)) -> image_id x = image_id self -> x = self.
Proof.
  unfold model_save; destruct (existsb _ _) eqn:E; simpl.
  - intros Hx Hid; apply in_map_iff in Hx as (y & <- & Hy).
    destruct (Nat.eqb (image_id y) (image_id self)) eqn:Ey; [reflexivity|].
    apply Nat.eqb_neq in Ey; contradiction.
  - intros [<-|Hx] Hid; [reflexivity|].
    exfalso; assert (Hf : existsb (fun r => Nat.eqb (image_id r) (image_id self)) (images db) = true)
      by (apply existsb_exists; exists x; split; [exact Hx|apply Nat.eqb_eq; exact Hid]).
    congruence.
Qed.

Lemma products_of_linked db img p :
  In p (products_of db img) -> forall i, image_id i = img -> linked db p i = true.
Proof.
  unfold products_of, linked; intros Hp i Hi.
  apply in_map_iff in Hp as (l & <- & Hl); apply filter_In in Hl as [Hl Hs].
  apply existsb_exists; exists l; split; [exact Hl|].
  rewrite Nat.eqb_refl, Hi; exact Hs.
Qed.

(** saving an image with [is_main] set makes it the only main image of every product it already belongs to, so [main_image] of each such product returns it. *)
Theorem save_main_image_unique self db p :
  Images.is_main self = true ->
  In p (Images.products_of db (Images.image_id self)) ->
  Images.main_image (Images.save self db) p = Some self
  /\ forall i, In i (Images.images_of (Images.save self db) p) -> Images.is_main i = true -> i = self.
Proof.
  intros Hm Hp.
  set (db1 := model_save self db).
  assert (Hl1 : product_images db1 = product_images db) by apply model_save_links.
  assert (Hp1 : In p (products_of db1 (image_id self)))
    by (unfold products_of; rewrite Hl1; exact Hp).
  assert (Hsave : save self db
                  = set_images (map (clear_linked db1 (image_id self) (products_of db1 (image_id self)))
                                    (images db1)) db1)
    by (unfold save; rewrite Hm; apply fold_unset_other_main).
  assert (Honly : forall i, In i (images_of (save self db) p) -> is_main i = true -> i = self).
  { intros i Hi Hmi; rewrite Hsave in Hi; unfold images_of in Hi.
    apply filter_In in Hi as [Hi Hli]; rewrite linked_set_images in Hli.
    apply in_map_iff in Hi as (x & <- & Hx).
    unfold clear_linked in *.
    destruct (existsb (fun q => linked db1 q x) (products_of db1 (image_id self))
              && negb (Nat.eqb (image_id x) (image_id self)) && is_main x) eqn:E.
    - discriminate.
    - rewrite Hmi in E; rewrite andb_true_r in E.
      replace (existsb (fun q => linked db1 q x) (products_of db1 (image_id self))) with true in E
        by (symmetry; apply existsb_exists; exists p; auto).
      simpl in E; apply negb_false_iff, Nat.eqb_eq in E.
      apply (model_save_pk self db x Hx E). }
  split; [|exact Honly].
  unfold main_image.
  assert (Hin : In self (filter is_main (images_of (save self db) p))).
  { apply filter_In; split; [|exact Hm].
    unfold images_of; apply filter_In; split.
    - rewrite Hsave; simpl; apply in_map_iff; exists self; split.
      + unfold clear_linked; rewrite Nat.eqb_refl, andb_false_r; reflexivity.
      + apply model_save_self_in.
    - rewrite Hsave, linked_set_images.
      apply (products_of_linked db1 (image_id self)); auto. }
  destruct (filter is_main (images_of (save self db) p)) as [|i l] eqn:Hf; [destruct Hin|].
  f_equal; apply Honly.
  - assert (Hi : In i (filter is_main (images_of (save self db) p))) by (rewrite Hf; left; reflexivity).
    apply filter_In in Hi; apply Hi.
  - assert (Hi : In i (filter is_main (images_of (save self db) p))) by (rewrite Hf; left; reflexivity).
    apply filter_In in Hi; apply Hi.
Qed.

Lemma save_main_image_unique_witness :
  Images.main_image (Images.save sample_image sample_image_db) 1 = Some sample_image
  /\ forall i, In i (Images.images_of (Images.save sample_image sample_image_db) 1) ->
       Images.is_main i = true -> i = sample_image.
Proof.
  apply (save_main_image_unique sample_image sample_image_db 1).
  - reflexivity.
  - simpl; tauto.
Defined.

Lemma model_save_in self db x :
  In x (images (model_save self db)) -> x = self \/ In x (images db).
Proof.
  unfold model_save; destruct (existsb _ _); simpl.
  - intros Hx; apply in_map_iff in Hx as (y & <- & Hy).
    destruct (Nat.eqb (image_id y) (image_id self)); auto.
  - intros [<-|H]; auto.
Qed.

(** [Image.save] never makes another image main: after the save, every main image is the saved one or was already a main image row before. *)
Theorem save_never_promotes self db i :
  In i (Images.images (Images.save self db)) -> Images.is_main i = true ->
  i = self \/ (In i (Images.images db) /\ Images.is_main i = true).
Proof.
  intros Hi Hm; unfold save in Hi.
  destruct (is_main self).
  - rewrite fold_unset_other_main in Hi; simpl in Hi.
    apply in_map_iff in Hi as (x & <- & Hx).
    unfold clear_linked in *.
    destruct (_ && _ && is_main x); [discriminate|].
    destruct (model_save_in _ _ _ Hx); auto.
  - destruct (model_save_in _ _ _ Hi); auto.
Qed.

Lemma save_never_promotes_witness :
  mkImage 12 true = sample_image
  \/ (In (mkImage 12 true) (Images.images sample_two_products_db)
      /\ Images.is_main (mkImage 12 true) = true).
Proof.
  apply (save_never_promotes sample_image sample_two_products_db (mkImage 12 true)).
  - vm_compute; tauto.
  - reflexivity.
Defined.

End ImageFacts.

(** ** [WorkerProductAudit.save] *)

(** Saving a [WorkerProductAudit] instance a second time, at any instant, changes none of the fields [save] reads or writes: the second save writes the same [quantity_recorded], [photo_taken], [is_completed] and [completed_at] as the first. *)
Theorem worker_audit_resave now now' w :
  Store.save now' (Store.save now w) = Store.save now w.
Proof.
  destruct w as [q p c t]; unfold Store.save; simpl.
  destruct q, p, c; simpl; reflexivity.
Qed.
